(** * generate-stress-jsonl: coordinate patterns, colours and the emission loop

    A shallow embedding of [scripts/generate-stress-jsonl.py].

    - Python [int] is [Z]; Python [str] is [string].
    - Python [float] is IEEE 754 binary64: the instance [Binary64] of the
      interface [Arith], on Rocq's primitive floats, which run inside Rocq.
      [math.cos], [math.sin], [math.pi] and the builtin [round] belong to the
      platform's C library and stay the parameters of the interface [Libm].
      What is proved for every instance of the interfaces holds of binary64.
    - A generator function is the list it yields at the start followed by
      the lists its [while True] loop yields, iteration after iteration.
    - [main] threads the random generator, the iterator and the output
      explicitly and returns what was written with the exit status.
    - Outside the model: the command line read by [parse_args] ([main] takes
      the parsed namespace), the text [json.dumps] makes of a record (the
      output is the list of records), a process started with SIGPIPE
      blocked, and a platform without SIGPIPE. *)

From Stdlib Require Import ZArith List Bool Lia String Ascii.
From Stdlib Require HexString.
From Stdlib Require Import FinFun.
From Stdlib Require Import PrimFloat FloatOps SpecFloat.
Import ListNotations.

Local Open Scope Z_scope.

(* ================================================================== *)
(** * Numbers *)

(** The float operations the script uses.  [of_int] is the conversion Python
    applies when an [int] meets a [float] in arithmetic; the literals [0.0],
    [2.0] and [10.0] are [of_int 0], [of_int 2] and [of_int 10] (the
    conversion of a small integer is exact). *)
Class Arith (F : Type) := {
  of_int : Z -> F;
  fadd : F -> F -> F;
  fmul : F -> F -> F;
  fdiv : F -> F -> F;
  fneg : F -> F;
  (** [x <= y] *)
  fle : F -> F -> bool;
  (** [int(x)]: truncation toward zero; [None] when Python raises *)
  ftrunc : F -> option Z;
  (** the literal [0.72] *)
  lit_0_72 : F
}.

(** What the script takes from [math] and the builtin [round(x, 3)]. *)
Class Libm (F : Type) := {
  math_pi : F;
  math_cos : F -> F;
  math_sin : F -> F;
  round3 : F -> F
}.

(** ** binary64 *)

(** [float(z)], rounded to the nearest float.  (For an integer that rounds
    beyond the largest float, about 2^1024, Python raises [OverflowError]
    where this conversion answers infinity; a sequence reaches such a ring
    or coordinate only after more points than any run yields.) *)
Definition b64_of_int (z : Z) : float :=
  SF2Prim (binary_normalize prec emax z 0 false).

Definition b64_trunc (f : float) : option Z :=
  match Prim2SF f with
  | S754_zero _ => Some 0
  | S754_finite s m e =>
      let mag := if 0 <=? e then Z.shiftl (Zpos m) e
                 else Z.shiftr (Zpos m) (- e) in
      Some (if s then - mag else mag)
  | S754_infinity _ => None
  | S754_nan => None
  end.

#[export] Instance Binary64 : Arith float := {
  of_int := b64_of_int;
  fadd := PrimFloat.add;
  fmul := PrimFloat.mul;
  fdiv := PrimFloat.div;
  fneg := PrimFloat.opp;
  fle := PrimFloat.leb;
  ftrunc := b64_trunc;
  lit_0_72 := PrimFloat.div (b64_of_int 72) (b64_of_int 100)
}.

(** Rocq has no binary64 cosine or sine.  A run of the snake, square or
    spiral pattern never calls [math]; this instance stands for the missing
    library in such runs and answers NaN. *)
Definition libm_absent : Libm float := {|
  math_pi := PrimFloat.nan;
  math_cos := fun _ => PrimFloat.nan;
  math_sin := fun _ => PrimFloat.nan;
  round3 := fun _ => PrimFloat.nan
|}.

(* ================================================================== *)
(** * Ranges and generators *)

(** [range(start, stop)] *)
Definition range (start stop : Z) : list Z :=
  map (fun i => start + Z.of_nat i) (seq 0 (Z.to_nat (stop - start))).

(** [range(start, stop, -1)] *)
Definition range_down (start stop : Z) : list Z :=
  map (fun i => start - Z.of_nat i) (seq 0 (Z.to_nat (start - stop))).

(** A generator function of the shape
    [yield ...; <locals>; while True: <body>]: the values yielded before the
    loop, the loop body as a function from the locals to the values it
    yields and the locals it leaves, and the locals at loop entry. *)
Record Generator (A : Type) := {
  Locals : Type;
  start : list A;
  body : Locals -> list A * Locals;
  entry : Locals
}.
Arguments Locals {A} _.
Arguments start {A} _.
Arguments body {A} _ _.
Arguments entry {A} _.

(** The values yielded by [k] iterations of the loop from locals [s]. *)
Fixpoint unroll {A S : Type} (b : S -> list A * S) (s : S) (k : nat) : list A :=
  match k with
  | O => []
  | Datatypes.S k' => let (ys, s') := b s in ys ++ unroll b s' k'
  end.

(** Everything yielded up to the end of the [k]-th iteration. *)
Definition yields_upto {A} (g : Generator A) (k : nat) : list A :=
  start g ++ unroll (body g) (entry g) k.

(** The value the [n]-th call of [next] returns (counting from 0).  [n + 1]
    iterations are run; [None] stands for a loop that yields too little,
    which [gen_total] excludes for the four patterns. *)
Definition gen_nth {A} (g : Generator A) (n : nat) : option A :=
  nth_error (yields_upto g (Datatypes.S n)) n.

(** A running generator object: the generator and the number of [next]
    calls made on it. *)
Record Iterator (A : Type) := {
  gen : Generator A;
  pos : nat
}.
Arguments gen {A} _.
Arguments pos {A} _.

Definition iter {A} (g : Generator A) : Iterator A := {| gen := g; pos := 0 |}.

Definition next {A} (it : Iterator A) : option A * Iterator A :=
  (gen_nth (gen it) (pos it), {| gen := gen it; pos := Datatypes.S (pos it) |}).

(* ================================================================== *)
(** * The four patterns *)

Section Patterns.
Context {F : Type} {AF : Arith F} {LF : Libm F}.

Definition Point : Type := F * F.

Definition square_ring_body (step : F) (ring : Z) : list Point :=
  let d := fmul (of_int ring) step in
  map (fun x => (fmul (of_int x) step, fneg d)) (range (- ring) (ring + 1))
  ++ map (fun y => (d, fmul (of_int y) step)) (range (- ring + 1) (ring + 1))
  ++ map (fun x => (fmul (of_int x) step, d)) (range_down (ring - 1) (- ring - 1))
  ++ map (fun y => (fneg d, fmul (of_int y) step)) (range_down (ring - 1) (- ring)).

Definition square_ring_points (step : F) : Generator Point := {|
  start := [(of_int 0, of_int 0)];
  body := fun ring => (square_ring_body step ring, ring + 1);
  entry := 1
|}.

Definition circle_ring_body (step : F) (ring : Z) : list Point :=
  let radius := fmul (of_int ring) step in
  let samples := Z.max (8 * ring) 8 in
  map (fun i =>
         let theta :=
           fdiv (fmul (fmul (of_int 2) math_pi) (of_int i)) (of_int samples) in
         let x := fmul radius (math_cos theta) in
         let y := fmul radius (math_sin theta) in
         (round3 x, round3 y))
      (range 0 samples).

Definition circle_ring_points (step : F) : Generator Point := {|
  start := [(of_int 0, of_int 0)];
  body := fun ring => (circle_ring_body step ring, ring + 1);
  entry := 1
|}.

Definition snake_row (step : F) (columns : Z) (row_step : F) (row : Z)
  : list Point :=
  if row mod 2 =? 0
  then map (fun col => (fmul (of_int col) step, fmul (of_int row) row_step))
           (range 0 columns)
  else map (fun col => (fmul (of_int col) step, fmul (of_int row) row_step))
           (range_down (columns - 1) (-1)).

Definition snake_points (step : F) (columns : Z) (row_gap : F)
  : Generator Point :=
  let columns := Z.max columns 1 in
  let row_step := fadd step row_gap in
  {| start := [];
     body := fun row => (snake_row step columns row_step row, row + 1);
     entry := 0 |}.

(** One leg of the spiral: [n] times, move by [(dx, dy)] and yield. *)
Fixpoint spiral_leg (step : F) (dx dy : Z) (n : nat) (x y : Z)
  : list Point * (Z * Z) :=
  match n with
  | O => ([], (x, y))
  | Datatypes.S n' =>
      let x1 := x + dx in
      let y1 := y + dy in
      let (ps, xy) := spiral_leg step dx dy n' x1 y1 in
      ((fmul (of_int x1) step, fmul (of_int y1) step) :: ps, xy)
  end.

(** The locals of [spiral_points]: [x], [y] and [leg_len]. *)
Definition spiral_body (step : F) (s : Z * Z * Z) : list Point * (Z * Z * Z) :=
  let '(x, y, leg_len) := s in
  let '(rightward, (x, y)) := spiral_leg step 1 0 (Z.to_nat leg_len) x y in
  let '(upward, (x, y)) := spiral_leg step 0 1 (Z.to_nat leg_len) x y in
  let leg_len := leg_len + 1 in
  let '(leftward, (x, y)) := spiral_leg step (-1) 0 (Z.to_nat leg_len) x y in
  let '(downward, (x, y)) := spiral_leg step 0 (-1) (Z.to_nat leg_len) x y in
  let leg_len := leg_len + 1 in
  (rightward ++ upward ++ leftward ++ downward, (x, y, leg_len)).

Definition spiral_points (step : F) : Generator Point := {|
  start := [(of_int 0, of_int 0)];
  body := spiral_body step;
  entry := (0, 0, 1)
|}.

End Patterns.

(* ================================================================== *)
(** * Colours *)

(** The interface of [random.Random] the script uses.  [randint a b]
    returns an integer of [a..b] and the advanced generator; which integer
    is the library's business. *)
Class PyRandom := {
  Rng : Type;
  (** [random.Random(seed)] for an integer seed *)
  Random : Z -> Rng;
  randint : Z -> Z -> Rng -> Z * Rng;
  randint_range : forall a b g, a <= b -> a <= fst (randint a b g) <= b
}.

Local Open Scope string_scope.

(** [f"{n:02x}"]: lower-case hexadecimal, zero-padded to two characters. *)
Definition hex_digits (n : Z) : string :=
  match n with
  | Z0 => "0"
  | Zpos p => HexString.Raw.of_pos p ""
  | Zneg p => String "-" (HexString.Raw.of_pos p "")
  end.

Definition format_02x (n : Z) : string :=
  let s := hex_digits n in
  if (String.length s <? 2)%nat then String "0" s else s.

(** [int(s, 16)] on a [str] whose characters are code points below 256;
    [None] is the [ValueError].  As [int] does: white space (tab to
    carriage return, the blank, U+0085 and U+00A0) is dropped at both ends;
    a sign may come first; the prefix [0x] or [0X] may follow,
    and one underscore after it; then come the digits, of either case, with
    single underscores between them; there must be a digit, and nothing may
    start or end with an underscore. *)
Definition is_space (c : ascii) : bool :=
  let n := nat_of_ascii c in
  ((9 <=? n) && (n <=? 13) || (n =? 32) || (n =? 133) || (n =? 160))%nat.

Fixpoint lstrip_space (s : string) : string :=
  match s with
  | String c s' => if is_space c then lstrip_space s' else s
  | EmptyString => s
  end.

Fixpoint rstrip_space (s : string) : string :=
  match s with
  | String c s' =>
      match rstrip_space s' with
      | EmptyString => if is_space c then EmptyString else String c EmptyString
      | t => String c t
      end
  | EmptyString => s
  end.

(** The sign: whether it is a minus, and what follows it. *)
Definition read_sign (s : string) : bool * string :=
  match s with
  | String c s' =>
      if Ascii.eqb c "+" then (false, s')
      else if Ascii.eqb c "-" then (true, s')
      else (false, s)
  | EmptyString => (false, s)
  end.

Definition skip_prefix_0x (s : string) : string :=
  match s with
  | String c0 (String c1 s') =>
      if Ascii.eqb c0 "0" && (Ascii.eqb c1 "x" || Ascii.eqb c1 "X") then
        match s' with
        | String c2 s'' => if Ascii.eqb c2 "_" then s'' else s'
        | EmptyString => s'
        end
      else s
  | _ => s
  end.

(** The digits and the underscores; [after_underscore] tells that the
    character before was an underscore. *)
Fixpoint int16_digits (s : string) (acc : Z) (after_underscore : bool)
  : option Z :=
  match s with
  | EmptyString => if after_underscore then None else Some acc
  | String c s' =>
      if Ascii.eqb c "_" then
        if after_underscore then None else int16_digits s' acc true
      else
        match HexString.ascii_to_digit c with
        | Some d => int16_digits s' (16 * acc + Z.of_N d) false
        | None => None
        end
  end.

Definition int16 (s : string) : option Z :=
  let s := rstrip_space (lstrip_space s) in
  let (negative, s) := read_sign s in
  let s := skip_prefix_0x s in
  match s with
  | EmptyString => None
  | String c _ =>
      if Ascii.eqb c "_" then None
      else
        match int16_digits s 0 false with
        | Some v => Some (if negative then - v else v)
        | None => None
        end
  end.

(** [color.lstrip("#")] *)
Fixpoint lstrip_hash (s : string) : string :=
  match s with
  | String c s' => if Ascii.eqb c "#" then lstrip_hash s' else s
  | EmptyString => s
  end.

(** The three channels [darken_hex] reads from a colour. *)
Definition channels (color : string) : option (Z * Z * Z) :=
  let color := lstrip_hash color in
  match int16 (substring 0 2 color),
        int16 (substring 2 2 color),
        int16 (substring 4 2 color) with
  | Some r, Some g, Some b => Some (r, g, b)
  | _, _, _ => None
  end.

Section Colours.
Context {F : Type} {AF : Arith F} {RNG : PyRandom}.

Definition random_hex_color (rng : Rng) : string * Rng :=
  let (r, rng) := randint 0 255 rng in
  let (g, rng) := randint 0 255 rng in
  let (b, rng) := randint 0 255 rng in
  ("#" ++ format_02x r ++ format_02x g ++ format_02x b, rng).

(** [max(0, min(255, int(c * factor)))] *)
Definition darken_channel (c : Z) (factor : F) : option Z :=
  match ftrunc (fmul (of_int c) factor) with
  | Some v => Some (Z.max 0 (Z.min 255 v))
  | None => None
  end.

Definition darken_hex (color : string) (factor : F) : option string :=
  match channels color with
  | Some (r, g, b) =>
      match darken_channel r factor,
            darken_channel g factor,
            darken_channel b factor with
      | Some r, Some g, Some b =>
          Some ("#" ++ format_02x r ++ format_02x g ++ format_02x b)
      | _, _, _ => None
      end
  | None => None
  end.

End Colours.

(** A linear congruential generator, to run the script inside Rocq.  It is
    one implementation of [PyRandom]; every statement below holds for all
    of them. *)
Definition lcg_next (g : Z) : Z := (g * 1103515245 + 12345) mod 2147483648.

Definition lcg_randint (a b g : Z) : Z * Z :=
  let g' := lcg_next g in
  (a + (g' / 65536) mod (b - a + 1), g').

(* ================================================================== *)
(** * The emission loop *)

Inductive Pattern := Snake | Square | Ring | Spiral.

(** The disposition of SIGPIPE.  The interpreter starts with the signal
    ignored, and a write to a pipe nobody reads raises [BrokenPipeError];
    under the default disposition the signal terminates the process at that
    write. *)
Inductive Disposition := SIG_DFL | SIG_IGN.

(** How the output accepts one record line. *)
Inductive WriteResult :=
| Written
| PipeClosed    (* nobody reads the pipe any more *)
| WriteError.   (* the write raises another exception *)

(** What a run takes from outside the script: the entropy that seeds the
    generator when no seed is given, and the behaviour of standard output
    at each record (counted from 0). *)
Record Env := {
  entropy : Z;
  sink : nat -> WriteResult
}.

Inductive Exit :=
| Success       (* [return 0] and [os._exit(0)] *)
| UsageError    (* [SystemExit("--size must be > 0")] *)
| Failure       (* an exception that nothing catches *)
| Killed.       (* terminated by SIGPIPE *)

Section Emission.
Context {F : Type} {AF : Arith F} {LF : Libm F} {RNG : PyRandom}.

(** The namespace [parse_args] returns. *)
Record Args := {
  count : Z;
  size : F;
  start_x : F;
  start_y : F;
  pattern : Pattern;
  columns : Z;
  row_gap : F;
  seed : option Z
}.

(** The defaults of [parse_args]. *)
Definition default_args : Args := {|
  count := 1000;
  size := of_int 10;
  start_x := of_int 0;
  start_y := of_int 0;
  pattern := Snake;
  columns := 40;
  row_gap := of_int 10;
  seed := None
|}.

Record Props := {
  fill : string;
  stroke : string;
  strokeWidth : Z
}.

Record Obj := {
  type_ : string;
  kind : string;
  obj_x : F;
  obj_y : F;
  width : F;
  height : F;
  rotation : F;
  z_index : Z;
  props : Props
}.

(** What a run leaves: the records standard output took, in order, and the
    exit status. *)
Record Run := {
  output : list Obj;
  exit : Exit
}.

(** [for index in range(args.count): ...], on the indices still to do. *)
Fixpoint emit (sigpipe : Disposition) (args : Args)
  (snk : nat -> WriteResult) (indices : list Z)
  (points : Iterator (@Point F)) (rng : Rng) (written : list Obj) : Run :=
  match indices with
  | [] => {| output := written; exit := Success |}
  | index :: rest =>
      match next points with
      | (None, _) => {| output := written; exit := Failure |}
      | (Some (dx, dy), points) =>
          let (fill_, rng) := random_hex_color rng in
          match darken_hex fill_ lit_0_72 with
          | None => {| output := written; exit := Failure |}
          | Some border =>
              let kind_ := if (index mod 2 =? 0)%Z then "rectangle" else "ellipse" in
              let obj := {|
                type_ := "object";
                kind := kind_;
                obj_x := fadd (start_x args) dx;
                obj_y := fadd (start_y args) dy;
                width := size args;
                height := size args;
                rotation := of_int 0;
                z_index := index;
                props := {| fill := fill_; stroke := border; strokeWidth := 1 |}
              |} in
              match snk (List.length written) with
              | Written =>
                  emit sigpipe args snk rest points rng (written ++ [obj])
              | PipeClosed =>
                  match sigpipe with
                  | SIG_DFL => {| output := written; exit := Killed |}
                  | SIG_IGN =>
                      (* [except BrokenPipeError: ... os._exit(0)] *)
                      {| output := written; exit := Success |}
                  end
              | WriteError => {| output := written; exit := Failure |}
              end
          end
      end
  end.

Definition main (env : Env) (args : Args) : Run :=
  (* [signal.signal(signal.SIGPIPE, signal.SIG_DFL)] *)
  let sigpipe := SIG_DFL in
  if (count args <=? 0)%Z then {| output := []; exit := Success |}
  else if fle (size args) (of_int 0) then {| output := []; exit := UsageError |}
  else
    let rng := Random (match seed args with
                       | Some s => s
                       | None => entropy env
                       end) in
    let points :=
      match pattern args with
      | Snake => snake_points (size args) (columns args) (row_gap args)
      | Square => square_ring_points (size args)
      | Spiral => spiral_points (size args)
      | Ring => circle_ring_points (size args)
      end in
    emit sigpipe args (sink env) (range 0 (count args)) (iter points) rng [].

End Emission.

Local Close Scope string_scope.

#[export] Instance Lcg : PyRandom.
Proof.
refine {| Rng := Z; Random := fun s => s; randint := lcg_randint |}.
intros a b g H. unfold lcg_randint. cbn [fst].
pose proof (Z.mod_pos_bound (lcg_next g / 65536) (b - a + 1)). lia.
Defined.

(** [int(c * 0.72)] does not raise on a byte.  Binary64 satisfies it;
    [emit] needs it to get past [darken_hex]. *)
Class TruncatesBytes (F : Type) {AF : Arith F} : Type := {
  trunc_byte : forall c, 0 <= c <= 255 ->
    exists v, ftrunc (fmul (of_int c) lit_0_72) = Some v
}.

(* ================================================================== *)
(** * The lattice walk of the specification

    "Starting from (0,0), for leg length L = 1, 2, 3, ... the walk moves
    right L steps, then up L steps (after which L increases by 1), then left
    L steps, then down L steps (after which L increases by 1 again),
    forever."  Written from these words, one lattice step at a time. *)

Inductive Heading := Rightward | Upward | Leftward | Downward.

Record Walker := {
  at_x : Z;
  at_y : Z;
  heading : Heading;
  (** steps left in the current leg, at least 1 *)
  togo : nat;
  (** the current leg length L *)
  leg_length : nat
}.

Definition walker_start : Walker :=
  {| at_x := 0; at_y := 0; heading := Rightward; togo := 1; leg_length := 1 |}.

Definition delta (h : Heading) : Z * Z :=
  match h with
  | Rightward => (1, 0)
  | Upward => (0, 1)
  | Leftward => (-1, 0)
  | Downward => (0, -1)
  end.

Definition turn (h : Heading) : Heading :=
  match h with
  | Rightward => Upward
  | Upward => Leftward
  | Leftward => Downward
  | Downward => Rightward
  end.

(** The leg length after a leg with heading [h] ends. *)
Definition next_length (h : Heading) (l : nat) : nat :=
  match h with
  | Upward | Downward => Datatypes.S l
  | Rightward | Leftward => l
  end.

Definition walk_step (w : Walker) : Walker :=
  let x := at_x w + fst (delta (heading w)) in
  let y := at_y w + snd (delta (heading w)) in
  match togo w with
  | Datatypes.S (Datatypes.S t) =>
      {| at_x := x; at_y := y; heading := heading w;
         togo := Datatypes.S t; leg_length := leg_length w |}
  | _ =>
      let l := next_length (heading w) (leg_length w) in
      {| at_x := x; at_y := y; heading := turn (heading w);
         togo := l; leg_length := l |}
  end.

(** The lattice point the walk is at after [n] steps. *)
Definition lattice_path (n : nat) : Z * Z :=
  let w := Nat.iter n walk_step walker_start in (at_x w, at_y w).

(** A lattice point with each coordinate multiplied by [step]. *)
Definition scale {F : Type} {AF : Arith F} (step : F) (p : Z * Z) : F * F :=
  (fmul (of_int (fst p)) step, fmul (of_int (snd p)) step).

(* ================================================================== *)
(** * Observations on a run and on a ring *)

(** An output that takes every record. *)
Definition accepting : nat -> WriteResult := fun _ => Written.

Definition position {F : Type} (o : @Obj F) : F * F := (obj_x o, obj_y o).

Definition colours {F : Type} (o : @Obj F) : string * string :=
  (fill (props o), stroke (props o)).

(** The kind of the record with emission index [i]. *)
Definition kind_at (i : Z) : string :=
  if Z.even i then "rectangle"%string else "ellipse"%string.



(** The products of [step] with the integers of [-r..r] are pairwise
    different floats.  (Beyond the largest float they are not: they are all
    infinite.) *)
Definition distinct_products {F : Type} {AF : Arith F} (step : F) (r : Z)
  : Prop :=
  forall k1 k2, - r <= k1 <= r -> - r <= k2 <= r ->
    fmul (of_int k1) step = fmul (of_int k2) step -> k1 = k2.

(** [-(r * step)], which the loops write for the top and the left edge, is
    the product [(-r) * step]. *)
Definition negation_agrees {F : Type} {AF : Arith F} (step : F) (r : Z)
  : Prop :=
  fneg (fmul (of_int r) step) = fmul (of_int (- r)) step.

(** [0 * step] is the [0.0] the generators yield first. *)
Definition zero_product {F : Type} {AF : Arith F} (step : F) : Prop :=
  fmul (of_int 0) step = of_int 0.

(** [distinct_products] on binary64, by comparing the floats. *)
Definition b64_distinct_products (step : float) (r : Z) : bool :=
  let product k := PrimFloat.mul (b64_of_int k) step in
  forallb (fun k1 =>
    forallb (fun k2 =>
      (k1 =? k2)
      || (negb (PrimFloat.eqb (product k1) (product k2))
          && PrimFloat.eqb (product k1) (product k1)))
      (range (- r) (r + 1)))
    (range (- r) (r + 1)).



Definition is_hex_digit (c : ascii) : bool :=
  match HexString.ascii_to_digit c with
  | Some _ => true
  | None => false
  end.

(** A colour of six hexadecimal digits, with or without leading [#]. *)
Definition well_formed_colour (color : string) : bool :=
  let s := lstrip_hash color in
  (String.length s =? 6)%nat && forallb is_hex_digit (list_ascii_of_string s).

Definition le3 (a b : Z * Z * Z) : Prop :=
  let '(r1, g1, b1) := a in
  let '(r2, g2, b2) := b in
  r1 <= r2 /\ g1 <= g2 /\ b1 <= b2.

(* ================================================================== *)
(** * Definitions for the proofs *)

(** The locals after [k] iterations. *)
Fixpoint locals_after {A S : Type} (b : S -> list A * S) (s : S) (k : nat)
  : S :=
  match k with
  | O => s
  | Datatypes.S k' => locals_after b (snd (b s)) k'
  end.

(** A generator whose loop body yields something in every iteration:
    [Inv] holds of the locals at loop entry and after every iteration. *)
Definition productive {A} (g : Generator A) (Inv : Locals g -> Prop) : Prop :=
  Inv (entry g) /\
  forall s, Inv s -> fst (body g s) <> [] /\ Inv (snd (body g s)).

(** The shape [square_ring_points] and [circle_ring_points] share: yield the
    centre, then for [ring = 1, 2, ...] the points of that ring. *)
Definition ring_generator {A : Type} (centre : A) (points_of : Z -> list A)
  : Generator A := {|
  start := [centre];
  body := fun ring => (points_of ring, ring + 1);
  entry := 1
|}.

(** The lattice points of ring [ring], in the order of the four loops. *)
Definition square_lattice (ring : Z) : list (Z * Z) :=
  map (fun x => (x, - ring)) (range (- ring) (ring + 1))
  ++ map (fun y => (ring, y)) (range (- ring + 1) (ring + 1))
  ++ map (fun x => (x, ring)) (range_down (ring - 1) (- ring - 1))
  ++ map (fun y => (- ring, y)) (range_down (ring - 1) (- ring)).

(** The lattice points the walk visits in its next [m] steps. *)
Fixpoint walk_list (w : Walker) (m : nat) : list (Z * Z) :=
  match m with
  | O => []
  | Datatypes.S m' =>
      let w' := walk_step w in (at_x w', at_y w') :: walk_list w' m'
  end.

(** The walker at the head of a rightward leg of length [l]. *)
Definition at_loop_head (x y l : Z) : Walker :=
  {| at_x := x; at_y := y; heading := Rightward;
     togo := Z.to_nat l; leg_length := Z.to_nat l |}.

Local Open Scope string_scope.

(** A channel value. *)
Definition is_byte (v : Z) : Prop := 0 <= v <= 255.

(** [int(v * 0.72)] the way the specification words it: the product
    truncated to an integer. *)
Definition truncated_0_72 (v : Z) : Z := Z.quot (72 * v) 100.

Definition darkened (c : Z * Z * Z) : Z * Z * Z :=
  let '(r, g, b) := c in (truncated_0_72 r, truncated_0_72 g, truncated_0_72 b).

(** What the proofs need of the two characters [format_02x] gives a byte. *)
Definition byte_formats (v : Z) : bool :=
  match format_02x v with
  | String c1 (String c2 EmptyString) =>
      negb (Ascii.eqb c1 "#") && is_hex_digit c1 && is_hex_digit c2
      && match int16 (format_02x v) with
         | Some w => w =? v
         | None => false
         end
  | _ => false
  end%Z.

(** What the proofs need of [darken_channel] on a byte, on binary64. *)
Definition byte_darkens (v : Z) : bool :=
  match darken_channel (F := float) v lit_0_72 with
  | Some w => (w =? truncated_0_72 v) && (0 <=? w) && (w <=? v)
  | None => false
  end%Z.

Local Close Scope string_scope.

Section RunDescriptions.
Context {F : Type} {AF : Arith F} {LF : Libm F} {RNG : PyRandom}.

(** The generator [main] selects. *)
Definition pattern_points (args : Args) : Generator (@Point F) :=
  match pattern args with
  | Snake => snake_points (size args) (columns args) (row_gap args)
  | Square => square_ring_points (size args)
  | Spiral => spiral_points (size args)
  | Ring => circle_ring_points (size args)
  end.

(** The record the loop body builds. *)
Definition record_of (args : Args) (index : Z) (p : @Point F)
  (fill_ border : string) : Obj := {|
  type_ := "object";
  kind := if index mod 2 =? 0 then "rectangle"%string else "ellipse"%string;
  obj_x := fadd (start_x args) (fst p);
  obj_y := fadd (start_y args) (snd p);
  width := size args;
  height := size args;
  rotation := of_int 0;
  z_index := index;
  props := {| fill := fill_; stroke := border; strokeWidth := 1 |}
|}.

(** The generator after [j] colours have been drawn from it. *)
Fixpoint rng_after (rng : Rng) (j : nat) : Rng :=
  match j with
  | O => rng
  | Datatypes.S j' => rng_after (snd (random_hex_color rng)) j'
  end.

(** The [j]-th fill colour drawn from [rng]. *)
Definition fill_at (rng : Rng) (j : nat) : string :=
  fst (random_hex_color (rng_after rng j)).

(** What [emit] appends to the output: record [j] carries the [j]-th of
    the indices, the point of the [j]-th [next], the [j]-th fill colour and
    its darkened companion. *)
Definition emitted (args : Args) (indices : list Z)
  (points : Iterator (@Point F)) (rng : Rng) (j : nat) (o : Obj) : Prop :=
  exists index p border,
    nth_error indices j = Some index
    /\ gen_nth (gen points) (pos points + j) = Some p
    /\ darken_hex (fill_at rng j) lit_0_72 = Some border
    /\ o = record_of args index p (fill_at rng j) border.

(** The generator state [main] starts the loop with. *)
Definition initial_rng (env : Env) (args : @Args F) : Rng :=
  Random (match seed args with
          | Some s => s
          | None => entropy env
          end).

(** The run emits max(N,0) records whose z_index fields are 0 .. N-1. *)
Definition emits_count (run : @Run F) (n : Z) : Prop :=
  List.length (output run) = Z.to_nat (Z.max n 0)
  /\ map z_index (output run) = range 0 n.

(** The run fails with the usage error before any output. *)
Definition usage_failure (run : @Run F) : Prop :=
  output run = [] /\ exit run = UsageError.

End RunDescriptions.

(** Concrete runs use binary64, the sample generator and an output that
    takes every record. *)
Definition env0 : Env := {| entropy := 7; sink := accepting |}.

Definition args_b64 (n : Z) (sz : float) : @Args float := {|
  count := n;
  size := sz;
  start_x := start_x default_args;
  start_y := start_y default_args;
  pattern := pattern default_args;
  columns := 2;
  row_gap := row_gap default_args;
  seed := Some 42
|}.

(** [count=5, pattern=snake, size=10, columns=2], the other options at
    their defaults except the row gap, which is given. *)
Definition snake_example (gap : float) : @Args float := {|
  count := 5;
  size := 10%float;
  start_x := start_x default_args;
  start_y := start_y default_args;
  pattern := Snake;
  columns := 2;
  row_gap := gap;
  seed := seed default_args
|}.

(** The points the specification lists for the snake example. *)
Definition listed_snake_points : list (float * float) :=
  [(0, 0); (10, 0); (10, 10); (0, 10); (0, 20)]%float.

(* ================================================================== *)
(** * Definitions for the further properties *)

(** The cell of the snake's [n]-th point, column and row: rows of
    [max(columns, 1)] cells, left to right in the even rows and right to
    left in the odd ones. *)
Definition snake_cell (columns : Z) (n : nat) : Z * Z :=
  let c := Z.max columns 1 in
  let row := Z.of_nat n / c in
  let i := Z.of_nat n mod c in
  (if Z.even row then i else c - 1 - i, row).

(** The namespace with another [count], and with another [seed]. *)
Definition with_count {F : Type} (args : @Args F) (n : Z) : @Args F := {|
  count := n;
  size := size args;
  start_x := start_x args;
  start_y := start_y args;
  pattern := pattern args;
  columns := columns args;
  row_gap := row_gap args;
  seed := seed args
|}.

Definition with_seed {F : Type} (args : @Args F) (s : option Z) : @Args F := {|
  count := count args;
  size := size args;
  start_x := start_x args;
  start_y := start_y args;
  pattern := pattern args;
  columns := columns args;
  row_gap := row_gap args;
  seed := s
|}.

(** The same machine with an output that takes every record. *)
Definition unobstructed (env : Env) : Env :=
  {| entropy := entropy env; sink := accepting |}.

(** How the run ends when the output refuses a record. *)
Definition exit_on (r : WriteResult) : Exit :=
  match r with
  | Written => Success
  | PipeClosed => Killed
  | WriteError => Failure
  end.

(** The colour [darken_hex] and [random_hex_color] write for three
    channels. *)
Definition write_colour (c : Z * Z * Z) : string :=
  let '(r, g, b) := c in
  ("#" ++ format_02x r ++ format_02x g ++ format_02x b)%string.

(** [darken_hex] with factor 0.72, [n] times in a row, on binary64. *)
Fixpoint darken_times (n : nat) (color : string) : option string :=
  match n with
  | O => Some color
  | Datatypes.S n' =>
      match darken_hex (F := float) color lit_0_72 with
      | Some c => darken_times n' c
      | None => None
      end
  end.

(** A digit of 0-9 or a-f. *)
Definition is_lower_hex_digit (c : ascii) : bool :=
  let n := nat_of_ascii c in
  ((48 <=? n) && (n <=? 57) || (97 <=? n) && (n <=? 102))%nat.

(** ["#"] followed by six lower-case hexadecimal digits. *)
Definition lower_case_colour (color : string) : bool :=
  match color with
  | String c s =>
      Ascii.eqb c "#" && (String.length s =? 6)%nat
      && forallb is_lower_hex_digit (list_ascii_of_string s)
  | EmptyString => false
  end.

(** Every character there is. *)
Definition all_ascii : list ascii := map ascii_of_nat (seq 0 256).

(** What [int(s, 16)] can return on a slice of at most two characters. *)
Definition slice_value (v : Z) : Prop := -15 <= v <= 255.

Definition slice_bounded (s : string) : bool :=
  match int16 s with
  | Some v => (-15 <=? v) && (v <=? 255)
  | None => true
  end.

Definition slice_of_one (c1 : ascii) : bool :=
  slice_bounded (String c1 "").

Definition slices_from (c1 : ascii) : bool :=
  forallb (fun c2 => slice_bounded (String c1 (String c2 ""))) all_ascii.

(** Checks over one byte, run over all of them in the proofs. *)
Definition byte_formats_lower_case (v : Z) : bool :=
  match format_02x v with
  | String c1 (String c2 EmptyString) =>
      is_lower_hex_digit c1 && is_lower_hex_digit c2
  | _ => false
  end.

Definition byte_darkens_strictly (v : Z) : bool :=
  (truncated_0_72 v <? v) || (v =? 0).

Definition byte_fades_out (v : Z) : bool :=
  Nat.iter 15 truncated_0_72 v =? 0.

Definition byte_rejects (factor : float) (v : Z) : bool :=
  match darken_channel (F := float) v factor with
  | Some _ => false
  | None => true
  end.

Definition byte_saturates (v : Z) : bool :=
  match darken_channel (F := float) v 2%float,
        darken_channel (F := float) v (-1)%float with
  | Some a, Some b => (a =? Z.min 255 (2 * v)) && (b =? 0)
  | _, _ => false
  end.

(** A run on binary64 whose output closes or fails after [k] records. *)
Definition closing_after (k : nat) (r : WriteResult) : Env :=
  {| entropy := 7; sink := fun n => if (n <? k)%nat then Written else r |}.

(** The lattice points of iteration [m] = 0, 1, ... of the spiral's loop,
    in order: from (-m, -m), legs of 2m+1 steps right and up and of 2m+2
    steps left and down. *)
Definition spiral_lattice (m : Z) : list (Z * Z) :=
  map (fun i => (- m + i, - m)) (range 1 (2 * m + 2))
  ++ map (fun i => (m + 1, - m + i)) (range 1 (2 * m + 2))
  ++ map (fun i => (m + 1 - i, m + 1)) (range 1 (2 * m + 3))
  ++ map (fun i => (- m - 1, m + 1 - i)) (range 1 (2 * m + 3)).

(** The spiral on the lattice, iteration by iteration. *)
Definition spiral_rings : Generator (Z * Z) := {|
  start := [(0, 0)];
  body := fun m => (spiral_lattice m, m + 1);
  entry := 0
|}.

(** The number of steps of the first [k] iterations of the spiral. *)
Definition spiral_steps (k : nat) : nat :=
  Z.to_nat (4 * Z.of_nat k * Z.of_nat k + 2 * Z.of_nat k).

(* ================================================================== *)
(** * The script on binary64, run inside Rocq *)

Example literal_0_72 : lit_0_72 = 0x1.70a3d70a3d70ap-1%float.
Proof. reflexivity. Qed.

Example square_ring_1 :
  yields_upto (square_ring_points 10%float) 1
  = [(0, 0); (-10, -10); (0, -10); (10, -10); (10, 0); (10, 10); (0, 10);
     (-10, 10); (-10, 0)]%float.
Proof. reflexivity. Qed.

Example snake_3_rows :
  yields_upto (snake_points 10%float 2 10%float) 3
  = [(0, 0); (10, 0); (10, 20); (0, 20); (0, 40); (10, 40)]%float.
Proof. reflexivity. Qed.

Example spiral_half_step :
  map (gen_nth (spiral_points 0.5%float)) (seq 0 6)
  = map Some [(0, 0); (0.5, 0); (0.5, 0.5); (0, 0.5); (-0.5, 0.5); (-0.5, 0)]%float.
Proof. reflexivity. Qed.

Example darken_example :
  darken_hex (F := float) "#8989a5" lit_0_72 = Some "#626276"%string.
Proof. reflexivity. Qed.

Example truncation_not_rounding :
  darken_channel (F := float) 137 lit_0_72 = Some 98.
Proof. reflexivity. Qed.

Example size_zero_count_three :
  main (LF := libm_absent) env0 (args_b64 3 0%float)
  = {| output := []; exit := UsageError |}.
Proof. reflexivity. Qed.

Example size_zero_count_zero :
  main (LF := libm_absent) env0 (args_b64 0 0%float)
  = {| output := []; exit := Success |}.
Proof. reflexivity. Qed.

Example closed_pipe_after_two :
  let env := {| entropy := 7;
                sink := fun n => if (n <? 2)%nat then Written else PipeClosed |} in
  map z_index (output (main (LF := libm_absent) env (args_b64 5 10%float)))
  = [0; 1]
  /\ exit (main (LF := libm_absent) env (args_b64 5 10%float)) = Killed.
Proof. split; reflexivity. Qed.

Example int16_reads :
  map int16 ["ff"; "FF"; "-1"; "+f"; " 7"; "7 "; "0x"; "_1"; "1_"; ""; "-"; "g"]%string
  = [Some 255; Some 255; Some (-1); Some 15; Some 7; Some 7; None; None;
     None; None; None; None].
Proof. reflexivity. Qed.

Example darken_signed_channels :
  darken_hex (F := float) "-1-2-3" lit_0_72 = Some "#000000"%string.
Proof. reflexivity. Qed.

Example square_ring_overflow :
  firstn 7 (square_ring_body 0x1p1023%float 3)
  = [(neg_infinity, neg_infinity); (neg_infinity, neg_infinity);
     (-0x1p1023, neg_infinity); (0, neg_infinity); (0x1p1023, neg_infinity);
     (infinity, neg_infinity); (infinity, neg_infinity)]%float.
Proof. reflexivity. Qed.

(* ================================================================== *)
(** * Ranges *)

Lemma length_range a b : List.length (range a b) = Z.to_nat (b - a).
Proof. unfold range. now rewrite length_map, length_seq. Qed.

Lemma length_range_down a b : List.length (range_down a b) = Z.to_nat (a - b).
Proof. unfold range_down. now rewrite length_map, length_seq. Qed.

Lemma in_range a b x : In x (range a b) <-> a <= x < b.
Proof.
unfold range. rewrite in_map_iff. split.
- intros [i [<- Hi]]. apply in_seq in Hi. lia.
- intros H. exists (Z.to_nat (x - a)). split; [lia|]. apply in_seq. lia.
Qed.

Lemma in_range_down a b x : In x (range_down a b) <-> b < x <= a.
Proof.
unfold range_down. rewrite in_map_iff. split.
- intros [i [<- Hi]]. apply in_seq in Hi. lia.
- intros H. exists (Z.to_nat (a - x)). split; [lia|]. apply in_seq. lia.
Qed.

Lemma nth_error_range a b i :
  (i < Z.to_nat (b - a))%nat -> nth_error (range a b) i = Some (a + Z.of_nat i).
Proof.
intros H. unfold range.
rewrite nth_error_map, nth_error_seq.
destruct (Nat.ltb_spec i (Z.to_nat (b - a))); [reflexivity | lia].
Qed.

Lemma range_nil a b : b <= a -> range a b = [].
Proof. intros H. unfold range. now replace (Z.to_nat (b - a)) with 0%nat by lia. Qed.

Lemma range_cons a b : a < b -> range a b = a :: range (a + 1) b.
Proof.
intros H. unfold range.
replace (Z.to_nat (b - a)) with (Datatypes.S (Z.to_nat (b - (a + 1)))) by lia.
cbn [seq map]. f_equal; [lia|].
rewrite <- seq_shift, map_map. apply map_ext. intros i. lia.
Qed.

Lemma range_down_nil a b : a <= b -> range_down a b = [].
Proof.
intros H. unfold range_down. now replace (Z.to_nat (a - b)) with 0%nat by lia.
Qed.

Lemma range_down_cons a b : b < a -> range_down a b = a :: range_down (a - 1) b.
Proof.
intros H. unfold range_down.
replace (Z.to_nat (a - b)) with (Datatypes.S (Z.to_nat (a - 1 - b))) by lia.
cbn [seq map]. f_equal; [lia|].
rewrite <- seq_shift, map_map. apply map_ext. intros i. lia.
Qed.

Lemma NoDup_range a b : NoDup (range a b).
Proof.
unfold range. apply Injective_map_NoDup; [|apply seq_NoDup].
intros i j. lia.
Qed.

Lemma NoDup_range_down a b : NoDup (range_down a b).
Proof.
unfold range_down. apply Injective_map_NoDup; [|apply seq_NoDup].
intros i j. lia.
Qed.

(* ================================================================== *)
(** * Generators *)

Section GeneratorFacts.
Context {A S : Type} (b : S -> list A * S).

Lemma unroll_app s j k :
  unroll b s (j + k) = unroll b s j ++ unroll b (locals_after b s j) k.
Proof.
revert s. induction j as [|j IH]; intros s; [reflexivity|].
cbn [Nat.add unroll locals_after]. destruct (b s) as [ys s'].
cbn [snd]. now rewrite IH, app_assoc.
Qed.

Lemma unroll_succ s k :
  unroll b s (Datatypes.S k) = unroll b s k ++ fst (b (locals_after b s k)).
Proof.
replace (Datatypes.S k) with (k + 1)%nat by lia. rewrite unroll_app.
cbn [unroll]. destruct (b (locals_after b s k)). cbn [fst]. now rewrite app_nil_r.
Qed.

(** A loop whose body always yields something has yielded at least [k]
    values after [k] iterations. *)
Lemma unroll_length (P : S -> Prop) :
  (forall s, P s -> fst (b s) <> [] /\ P (snd (b s))) ->
  forall k s, P s -> (k <= List.length (unroll b s k))%nat.
Proof.
intros Hb. induction k as [|k IH]; intros s Hs; [cbn; lia|].
cbn [unroll]. destruct (Hb s Hs) as [Hne Hs'].
destruct (b s) as [ys s']. cbn [fst snd] in *.
rewrite length_app. specialize (IH s' Hs').
destruct ys; [contradiction | cbn [List.length]; lia].
Qed.

End GeneratorFacts.

Lemma yields_upto_mono {A} (g : Generator A) j k n v :
  (j <= k)%nat ->
  nth_error (yields_upto g j) n = Some v ->
  nth_error (yields_upto g k) n = Some v.
Proof.
intros Hjk H. unfold yields_upto in *.
replace k with (j + (k - j))%nat by lia.
rewrite unroll_app, app_assoc.
rewrite nth_error_app1; [assumption|].
apply nth_error_Some. congruence.
Qed.

Lemma productive_length {A} (g : Generator A) Inv n :
  productive g Inv -> (n < List.length (yields_upto g (Datatypes.S n)))%nat.
Proof.
intros [H0 Hb]. unfold yields_upto. rewrite length_app.
pose proof (unroll_length (body g) Inv Hb (Datatypes.S n) (entry g) H0). lia.
Qed.

(** [next] never finds such a generator exhausted. *)
Lemma gen_total {A} (g : Generator A) Inv :
  productive g Inv -> forall n, exists v, gen_nth g n = Some v.
Proof.
intros Hp n. unfold gen_nth.
pose proof (productive_length g Inv n Hp) as Hlen.
apply nth_error_Some in Hlen.
destruct (nth_error (yields_upto g (Datatypes.S n)) n) as [w|];
  [now exists w | contradiction].
Qed.

(** What [next] returns does not depend on how far the loop is unrolled:
    whenever the first [k] iterations reach position [n], the value there is
    the one of [gen_nth]. *)
Lemma gen_nth_stable {A} (g : Generator A) Inv k n v :
  productive g Inv ->
  nth_error (yields_upto g k) n = Some v ->
  gen_nth g n = Some v.
Proof.
intros Hp H.
destruct (Nat.le_gt_cases k (Datatypes.S n)) as [Hk|Hk].
- eapply yields_upto_mono; eassumption.
- destruct (gen_total g Inv Hp n) as [w Hw]. rewrite Hw.
  pose proof (yields_upto_mono g (Datatypes.S n) k n w ltac:(lia) Hw).
  congruence.
Qed.

(* ================================================================== *)
(** * Generators of concentric rings

    [square_ring_points] and [circle_ring_points] have one shape: yield the
    centre, then for [ring = 1, 2, ...] yield the points of that ring. *)

Section RingGenerators.
Context {A : Type} (centre : A) (points_of : Z -> list A).
Hypothesis length_points_of :
  forall ring, 1 <= ring -> List.length (points_of ring) = Z.to_nat (8 * ring).

Local Abbreviation rings := (ring_generator centre points_of).

Lemma ring_locals_after ring k :
  locals_after (body rings) ring k = ring + Z.of_nat k.
Proof.
revert ring. induction k as [|k IH]; intros ring; cbn [locals_after].
- lia.
- cbn [body ring_generator snd]. rewrite IH. lia.
Qed.

(** The rings before ring [1 + k] hold [4 * k * (k + 1)] points. *)
Lemma length_ring_unroll k :
  List.length (unroll (body rings) 1 k)
  = Z.to_nat (4 * Z.of_nat k * (Z.of_nat k + 1)).
Proof.
induction k as [|k IH]; [reflexivity|].
rewrite unroll_succ, length_app, IH, ring_locals_after.
cbn [body ring_generator fst].
rewrite length_points_of by lia. nia.
Qed.

Lemma ring_productive : productive rings (fun ring => 1 <= ring).
Proof.
split; [cbn; lia|]. intros ring Hr. cbn [body ring_generator fst snd].
split; [|lia]. intros E. apply (f_equal (@List.length _)) in E.
rewrite length_points_of in E by assumption.
cbn [List.length] in E. lia.
Qed.

Lemma ring_position ring j :
  1 <= ring -> (j < Z.to_nat (8 * ring))%nat ->
  gen_nth rings (1 + Z.to_nat (4 * ring * (ring - 1)) + j)
  = nth_error (points_of ring) j.
Proof.
intros Hr Hj.
destruct (nth_error (points_of ring) j) as [v|] eqn:E.
2:{ apply nth_error_None in E. rewrite length_points_of in E; lia. }
apply gen_nth_stable with (Inv := fun ring => 1 <= ring) (k := Z.to_nat ring);
  [apply ring_productive|].
unfold yields_upto.
replace (Z.to_nat ring) with (Datatypes.S (Z.to_nat (ring - 1))) by lia.
rewrite unroll_succ, ring_locals_after.
change (start rings) with [centre].
change (entry rings) with 1.
change (fst (body rings (1 + Z.of_nat (Z.to_nat (ring - 1)))))
  with (points_of (1 + Z.of_nat (Z.to_nat (ring - 1)))).
cbn [app Nat.add nth_error].
rewrite nth_error_app2; rewrite length_ring_unroll; [|lia].
replace (1 + Z.of_nat (Z.to_nat (ring - 1))) with ring by lia.
rewrite <- E. f_equal.
rewrite Z2Nat.id by lia. replace (ring - 1 + 1) with ring by lia. lia.
Qed.

End RingGenerators.

(* ================================================================== *)
(** * The square rings *)

Lemma in_map_fst (c : Z) (l : list Z) a b :
  In (a, b) (map (fun x => (x, c)) l) <-> b = c /\ In a l.
Proof.
rewrite in_map_iff. split.
- intros [x [E H]]. inversion E. subst. auto.
- intros [-> H]. now exists a.
Qed.

Lemma in_map_snd (c : Z) (l : list Z) a b :
  In (a, b) (map (fun y => (c, y)) l) <-> a = c /\ In b l.
Proof.
rewrite in_map_iff. split.
- intros [x [E H]]. inversion E. subst. auto.
- intros [-> H]. now exists b.
Qed.

Lemma in_square_lattice ring a b :
  In (a, b) (square_lattice ring) <->
  (b = - ring /\ - ring <= a < ring + 1) \/
  (a = ring /\ - ring + 1 <= b < ring + 1) \/
  (b = ring /\ - ring - 1 < a <= ring - 1) \/
  (a = - ring /\ - ring < b <= ring - 1).
Proof.
unfold square_lattice.
rewrite !in_app_iff, !in_map_fst, !in_map_snd, !in_range, !in_range_down.
tauto.
Qed.

Lemma NoDup_map_fst (c : Z) (l : list Z) : NoDup l -> NoDup (map (fun x : Z => (x, c)) l).
Proof. apply Injective_map_NoDup. intros x y E. now inversion E. Qed.

Lemma NoDup_map_snd (c : Z) (l : list Z) : NoDup l -> NoDup (map (fun y : Z => (c, y)) l).
Proof. apply Injective_map_NoDup. intros x y E. now inversion E. Qed.

(** The four loops of one ring do not overlap and no loop repeats a point. *)
Lemma NoDup_square_lattice ring : 1 <= ring -> NoDup (square_lattice ring).
Proof.
intros Hr. unfold square_lattice.
repeat apply NoDup_app;
  try (apply NoDup_map_fst || apply NoDup_map_snd);
  try apply NoDup_range; try apply NoDup_range_down;
  intros [a b]; rewrite ?in_app_iff, ?in_map_fst, ?in_map_snd,
    ?in_range, ?in_range_down; lia.
Qed.

Lemma length_square_lattice ring :
  1 <= ring -> List.length (square_lattice ring) = Z.to_nat (8 * ring).
Proof.
intros Hr. unfold square_lattice.
rewrite !length_app, !length_map, !length_range, !length_range_down. lia.
Qed.

Section SquareAnyArithmetic.
Context {F : Type} {AF : Arith F}.

(** Ring [ring] has [8 * ring] points, in every arithmetic. *)
Lemma length_square_ring_body (step : F) ring :
  1 <= ring -> List.length (square_ring_body step ring) = Z.to_nat (8 * ring).
Proof.
intros Hr. unfold square_ring_body.
rewrite !length_app, !length_map, !length_range, !length_range_down. lia.
Qed.

Lemma square_productive (step : F) :
  productive (square_ring_points step) (fun ring => 1 <= ring).
Proof.
apply (ring_productive _ (square_ring_body step)).
intros ring Hr. now apply length_square_ring_body.
Qed.

(** Where ring [ring] sits in the sequence: after the centre and the
    [4 * ring * (ring - 1)] points of the rings before it. *)
Lemma square_ring_position (step : F) ring j :
  1 <= ring -> (j < Z.to_nat (8 * ring))%nat ->
  gen_nth (square_ring_points step)
          (1 + Z.to_nat (4 * ring * (ring - 1)) + j)
  = nth_error (square_ring_body step ring) j.
Proof.
apply (ring_position _ (square_ring_body step)).
intros r Hr. now apply length_square_ring_body.
Qed.

End SquareAnyArithmetic.

(** ** The corners of a ring, and the square it lies on *)


(** Two different floats are told apart by the comparison of IEEE 754. *)
Lemma b64_distinct (a b : float) :
  PrimFloat.eqb a b = false -> PrimFloat.eqb a a = true -> a <> b.
Proof. intros H1 H2 E. rewrite <- E, H2 in H1. discriminate. Qed.

Lemma b64_distinct_products_sound (step : float) (r : Z) :
  b64_distinct_products step r = true -> distinct_products step r.
Proof.
unfold b64_distinct_products, distinct_products. intros H k1 k2 H1 H2 E.
rewrite forallb_forall in H. specialize (H k1).
rewrite forallb_forall in H.
assert (In1 : In k1 (range (- r) (r + 1))) by (apply in_range; lia).
assert (In2 : In k2 (range (- r) (r + 1))) by (apply in_range; lia).
specialize (H In1 k2 In2).
destruct (Z.eqb_spec k1 k2) as [|_]; [assumption|].
cbn [orb] in H. apply andb_prop in H. destruct H as [Hd He].
apply negb_true_iff in Hd. exfalso. now apply (b64_distinct _ _ Hd He).
Qed.

Section SquareOnLattice.
Context {F : Type} {AF : Arith F}.

(** The points of a ring are its lattice points multiplied by [step]. *)
Lemma square_ring_body_lattice (step : F) (ring : Z) :
  negation_agrees step ring ->
  square_ring_body step ring = map (scale step) (square_lattice ring).
Proof.
unfold negation_agrees, square_ring_body, square_lattice. intros H.
cbv zeta. rewrite H, !map_app, !map_map. reflexivity.
Qed.

Lemma scale_injective_on (step : F) (r : Z) (p q : Z * Z) :
  distinct_products step r ->
  - r <= fst p <= r -> - r <= snd p <= r ->
  - r <= fst q <= r -> - r <= snd q <= r ->
  scale step p = scale step q -> p = q.
Proof.
intros Hd Hp1 Hp2 Hq1 Hq2 E. destruct p as [a b], q as [c d].
unfold scale in E. cbn [fst snd] in *. injection E as E1 E2.
apply Hd in E1; [|assumption..]. apply Hd in E2; [|assumption..].
now subst.
Qed.





End SquareOnLattice.





(* ================================================================== *)
(** * The spiral *)

Lemma iter_walk_step n w :
  Nat.iter n walk_step (walk_step w) = walk_step (Nat.iter n walk_step w).
Proof. apply Nat.iter_swap. Qed.

Lemma iter_walk_add j k w :
  Nat.iter (j + k) walk_step w = Nat.iter k walk_step (Nat.iter j walk_step w).
Proof.
rewrite Nat.add_comm. apply Nat.iter_add.
Qed.

Lemma length_walk_list w m : List.length (walk_list w m) = m.
Proof.
revert w. induction m as [|m IH]; intros w; [reflexivity|].
cbn [walk_list List.length]. now rewrite IH.
Qed.

Lemma walk_list_app w j k :
  walk_list w (j + k) = walk_list w j ++ walk_list (Nat.iter j walk_step w) k.
Proof.
revert w. induction j as [|j IH]; intros w; [reflexivity|].
cbn [Nat.add walk_list app]. f_equal.
rewrite IH, iter_walk_step. reflexivity.
Qed.

Lemma nth_error_walk_list w m i :
  (i < m)%nat ->
  nth_error (walk_list w m) i =
  Some (let w' := Nat.iter (Datatypes.S i) walk_step w in (at_x w', at_y w')).
Proof.
revert w i. induction m as [|m IH]; intros w i Hi; [lia|].
destruct i as [|i]; [reflexivity|].
cbn [walk_list nth_error]. rewrite IH by lia.
cbn zeta. rewrite iter_walk_step. reflexivity.
Qed.

Section SpiralAnyArithmetic.
Context {F : Type} {AF : Arith F}.
Variable step : F.

(** One leg of the code is one leg of the walk. *)
Lemma spiral_leg_walk h l n x y :
  let w := {| at_x := x; at_y := y; heading := h;
              togo := Datatypes.S n; leg_length := l |} in
  spiral_leg step (fst (delta h)) (snd (delta h)) (Datatypes.S n) x y
  = (map (scale step) (walk_list w (Datatypes.S n)),
     (x + Z.of_nat (Datatypes.S n) * fst (delta h),
      y + Z.of_nat (Datatypes.S n) * snd (delta h)))
  /\ Nat.iter (Datatypes.S n) walk_step w
     = {| at_x := x + Z.of_nat (Datatypes.S n) * fst (delta h);
          at_y := y + Z.of_nat (Datatypes.S n) * snd (delta h);
          heading := turn h;
          togo := next_length h l; leg_length := next_length h l |}.
Proof.
revert x y. induction n as [|n IH]; intros x y w.
- subst w. cbn [spiral_leg walk_list map Nat.iter nat_rect walk_step
    at_x at_y heading togo leg_length].
  split; [f_equal; f_equal; lia | f_equal; lia].
- specialize (IH (x + fst (delta h)) (y + snd (delta h))).
  cbn zeta in IH. destruct IH as [IH1 IH2].
  assert (Hw : walk_step w =
    {| at_x := x + fst (delta h); at_y := y + snd (delta h); heading := h;
       togo := Datatypes.S n; leg_length := l |}) by reflexivity.
  split.
  + change (spiral_leg step (fst (delta h)) (snd (delta h))
              (Datatypes.S (Datatypes.S n)) x y)
      with (let (ps, xy) :=
              spiral_leg step (fst (delta h)) (snd (delta h)) (Datatypes.S n)
                (x + fst (delta h)) (y + snd (delta h)) in
            ((fmul (of_int (x + fst (delta h))) step,
              fmul (of_int (y + snd (delta h))) step) :: ps, xy)).
    rewrite IH1.
    change (walk_list w (Datatypes.S (Datatypes.S n)))
      with ((at_x (walk_step w), at_y (walk_step w))
            :: walk_list (walk_step w) (Datatypes.S n)).
    rewrite Hw. cbn [at_x at_y map].
    f_equal. f_equal; lia.
  + change (Nat.iter (Datatypes.S (Datatypes.S n)) walk_step w)
      with (walk_step (Nat.iter (Datatypes.S n) walk_step w)).
    rewrite <- iter_walk_step, Hw, IH2. f_equal; lia.
Qed.

(** One iteration of the loop is [4 * l + 2] steps of the walk, after
    which the walk is again at the head of a rightward leg. *)
Lemma spiral_body_walk x y l :
  1 <= l ->
  spiral_body step (x, y, l)
  = (map (scale step) (walk_list (at_loop_head x y l) (Z.to_nat (4 * l + 2))),
     (x - 1, y - 1, l + 2))
  /\ Nat.iter (Z.to_nat (4 * l + 2)) walk_step (at_loop_head x y l)
     = at_loop_head (x - 1) (y - 1) (l + 2).
Proof.
intros Hl. unfold at_loop_head, spiral_body.
destruct (Z.to_nat l) as [|n] eqn:En; [lia|].
replace (Z.to_nat (l + 1)) with (Datatypes.S (Datatypes.S n)) by lia.
replace (Z.to_nat (l + 2)) with (Datatypes.S (Datatypes.S (Datatypes.S n))) by lia.
replace (l + 1 + 1) with (l + 2) by lia.
replace (Z.to_nat (4 * l + 2)) with
  (Datatypes.S n + (Datatypes.S n
   + (Datatypes.S (Datatypes.S n) + Datatypes.S (Datatypes.S n))))%nat by lia.
destruct (spiral_leg_walk Rightward (Datatypes.S n) n x y) as [A1 A2].
cbn [delta fst snd turn next_length] in A1, A2.
destruct (spiral_leg_walk Upward (Datatypes.S n) n
            (x + Z.of_nat (Datatypes.S n) * 1)
            (y + Z.of_nat (Datatypes.S n) * 0)) as [B1 B2].
cbn [delta fst snd turn next_length] in B1, B2.
destruct (spiral_leg_walk Leftward (Datatypes.S (Datatypes.S n))
            (Datatypes.S n)
            (x + Z.of_nat (Datatypes.S n) * 1 + Z.of_nat (Datatypes.S n) * 0)
            (y + Z.of_nat (Datatypes.S n) * 0 + Z.of_nat (Datatypes.S n) * 1))
  as [C1 C2].
cbn [delta fst snd turn next_length] in C1, C2.
destruct (spiral_leg_walk Downward (Datatypes.S (Datatypes.S n))
            (Datatypes.S n)
            (x + Z.of_nat (Datatypes.S n) * 1 + Z.of_nat (Datatypes.S n) * 0
             + Z.of_nat (Datatypes.S (Datatypes.S n)) * -1)
            (y + Z.of_nat (Datatypes.S n) * 0 + Z.of_nat (Datatypes.S n) * 1
             + Z.of_nat (Datatypes.S (Datatypes.S n)) * 0))
  as [D1 D2].
cbn [delta fst snd turn next_length] in D1, D2.
rewrite A1, B1, C1, D1.
rewrite !walk_list_app, !iter_walk_add, !map_app, A2, B2, C2, D2.
split; [|f_equal; lia].
apply f_equal2; [reflexivity|].
apply f_equal2; [apply f_equal2; lia | reflexivity].
Qed.

(** [k] iterations of the loop are the first [m] steps of the walk, for
    some [m >= k]. *)
Lemma spiral_unroll_walk k x y l :
  1 <= l ->
  exists m, (k <= m)%nat /\
    unroll (spiral_body step) (x, y, l) k
    = map (scale step) (walk_list (at_loop_head x y l) m).
Proof.
revert x y l. induction k as [|k IH]; intros x y l Hl.
- exists 0%nat. split; [lia | reflexivity].
- destruct (spiral_body_walk x y l Hl) as [E1 E2].
  destruct (IH (x - 1) (y - 1) (l + 2) ltac:(lia)) as [m [Hm E]].
  exists (Z.to_nat (4 * l + 2) + m)%nat. split; [lia|].
  cbn [unroll]. rewrite E1, E, walk_list_app, map_app, E2. reflexivity.
Qed.

(** After the centre, the [n]-th point of the sequence is the [n]-th
    point of the walk multiplied by [step], in every arithmetic. *)
Lemma spiral_points_walk n :
  gen_nth (spiral_points step) (Datatypes.S n)
  = Some (scale step (lattice_path (Datatypes.S n))).
Proof.
change (gen_nth (spiral_points step) (Datatypes.S n))
  with (nth_error (unroll (spiral_body step) (0, 0, 1)
                     (Datatypes.S (Datatypes.S n))) n).
destruct (spiral_unroll_walk (Datatypes.S (Datatypes.S n)) 0 0 1 ltac:(lia))
  as [m [Hm E]].
rewrite E, nth_error_map, nth_error_walk_list by lia. reflexivity.
Qed.

Lemma spiral_points_centre :
  gen_nth (spiral_points step) 0 = Some (of_int 0, of_int 0).
Proof. reflexivity. Qed.

Lemma spiral_productive :
  productive (spiral_points step) (fun s => 1 <= snd s).
Proof.
split; [cbn; lia|]. intros [[x y] l] Hl. cbn [snd] in Hl.
cbn [body spiral_points]. destruct (spiral_body_walk x y l Hl) as [E _].
rewrite E. cbn [fst snd]. split; [|lia].
intros H. apply (f_equal (@List.length _)) in H.
rewrite length_map, length_walk_list in H. cbn [List.length] in H. lia.
Qed.

End SpiralAnyArithmetic.

(** C5, as amended: the Spiral sequence starts with the literal
    (0.0, 0.0), and for every n >= 1 its n-th point is the n-th point of the
    lattice path of the specification (right L, up L, L+1, left L, down L,
    L+1, forever, from (0,0) with L = 1) with each coordinate multiplied by
    step in floating point; where 0 * step is 0.0 the whole sequence is the
    path multiplied by step.  The path begins (0,0),(1,0),(1,1),(0,1),
    (-1,1),(-1,0),(-1,-1),(0,-1),(1,-1),(2,-1). *)
Theorem spiral_is_lattice_path :
  (forall (F : Type) (AF : Arith F) (step : F),
     gen_nth (spiral_points step) 0 = Some (of_int 0, of_int 0)
     /\ (forall n, (1 <= n)%nat ->
           gen_nth (spiral_points step) n
           = Some (scale step (lattice_path n)))
     /\ (zero_product step ->
         forall n, gen_nth (spiral_points step) n
                   = Some (scale step (lattice_path n))))
  /\ map lattice_path (seq 0 10)
     = [(0, 0); (1, 0); (1, 1); (0, 1); (-1, 1); (-1, 0); (-1, -1); (0, -1);
        (1, -1); (2, -1)].
Proof.
split; [|reflexivity]. intros F AF step.
split; [apply spiral_points_centre|]. split.
- intros [|n] Hn; [lia|]. apply spiral_points_walk.
- intros Hz [|n]; [|apply spiral_points_walk].
  rewrite spiral_points_centre. unfold scale, lattice_path.
  cbn [Nat.iter nat_rect walker_start at_x at_y fst snd].
  unfold zero_product in Hz. now rewrite Hz.
Qed.

(** With an infinite step the path multiplied by step begins with
    (0 * inf, 0 * inf) = (nan, nan); the sequence begins with (0.0, 0.0). *)
Lemma spiral_is_lattice_path_counterexample :
  fle (F := float) infinity (of_int 0) = false
  /\ gen_nth (spiral_points infinity) 0 = Some (0, 0)%float
  /\ scale infinity (lattice_path 0) = (nan, nan)
  /\ gen_nth (spiral_points infinity) 0
     <> Some (scale infinity (lattice_path 0)).
Proof.
split; [reflexivity|]. split; [reflexivity|]. split; [reflexivity|].
intros E.
apply (f_equal (fun o => match o with
                         | Some (x, _) => PrimFloat.eqb x x
                         | None => false
                         end)) in E.
vm_compute in E. discriminate.
Qed.

(* ================================================================== *)
(** * The circular rings

    The coordinates of a ring point are made by [math.cos], [math.sin] and
    [round], which are parameters here.  What the loops fix, whatever these
    compute, is the number of points of a ring and their place in the
    sequence. *)

Section CircleAnyArithmetic.
Context {F : Type} {AF : Arith F} {LF : Libm F}.

Lemma length_circle_ring_body (step : F) ring :
  List.length (circle_ring_body step ring) = Z.to_nat (Z.max (8 * ring) 8).
Proof.
unfold circle_ring_body. rewrite length_map, length_range. f_equal. lia.
Qed.

Lemma circle_productive (step : F) :
  productive (circle_ring_points step) (fun ring => 1 <= ring).
Proof.
apply (ring_productive _ (circle_ring_body step)).
intros ring Hr. rewrite length_circle_ring_body. f_equal. lia.
Qed.

Lemma circle_ring_position (step : F) ring j :
  1 <= ring -> (j < Z.to_nat (8 * ring))%nat ->
  gen_nth (circle_ring_points step)
          (1 + Z.to_nat (4 * ring * (ring - 1)) + j)
  = nth_error (circle_ring_body step ring) j.
Proof.
apply (ring_position _ (circle_ring_body step)).
intros r Hr. rewrite length_circle_ring_body. f_equal. lia.
Qed.

End CircleAnyArithmetic.

(* ================================================================== *)
(** * Colours *)

Local Open Scope string_scope.

Lemma all_bytes_format : forallb byte_formats (range 0 256) = true.
Proof. vm_compute. reflexivity. Qed.

Lemma all_bytes_darken : forallb byte_darkens (range 0 256) = true.
Proof. vm_compute. reflexivity. Qed.

Lemma byte_in_range v : is_byte v -> In v (range 0 256).
Proof. intros H. apply in_range. unfold is_byte in H. lia. Qed.

Lemma format_02x_byte v :
  is_byte v ->
  exists c1 c2,
    format_02x v = String c1 (String c2 EmptyString)
    /\ Ascii.eqb c1 "#" = false
    /\ is_hex_digit c1 = true /\ is_hex_digit c2 = true
    /\ int16 (String c1 (String c2 EmptyString)) = Some v.
Proof.
intros Hv. pose proof all_bytes_format as H.
rewrite forallb_forall in H. specialize (H v (byte_in_range v Hv)).
unfold byte_formats in H.
destruct (format_02x v) as [|c1 [|c2 [|c3 s]]]; try discriminate.
exists c1, c2.
destruct (int16 (String c1 (String c2 "")))%string as [w|]; 
  [|rewrite andb_false_r in H; discriminate].
apply andb_true_iff in H. destruct H as [H H4].
apply andb_true_iff in H. destruct H as [H H3].
apply andb_true_iff in H. destruct H as [H1 H2].
apply negb_true_iff in H1. apply Z.eqb_eq in H4. subst w. auto.
Qed.

(** On binary64, [int(v * 0.72)] of a byte is the truncated product, a
    byte that does not exceed [v]. *)
Lemma darken_channel_byte v :
  is_byte v ->
  darken_channel (F := float) v lit_0_72 = Some (truncated_0_72 v)
  /\ is_byte (truncated_0_72 v) /\ truncated_0_72 v <= v.
Proof.
intros Hv. pose proof all_bytes_darken as H.
rewrite forallb_forall in H. specialize (H v (byte_in_range v Hv)).
unfold byte_darkens in H.
destruct (darken_channel (F := float) v lit_0_72) as [w|]; [|discriminate].
apply andb_true_iff in H. destruct H as [H H3].
apply andb_true_iff in H. destruct H as [H1 H2].
apply Z.eqb_eq in H1. apply Z.leb_le in H2, H3. subst w.
unfold is_byte in *. repeat split; lia.
Qed.

Lemma hex_digit_bound c d :
  HexString.ascii_to_digit c = Some d -> (d < 16)%N.
Proof.
destruct c as [[] [] [] [] [] [] [] []]; cbv; intros H;
  try discriminate; inversion H; reflexivity.
Qed.

(** A hexadecimal digit is no blank, no sign, no underscore and no [x]. *)
Lemma hex_digit_plain c :
  is_hex_digit c = true ->
  is_space c = false
  /\ Ascii.eqb c "+" = false /\ Ascii.eqb c "-" = false
  /\ Ascii.eqb c "_" = false
  /\ Ascii.eqb c "x" = false /\ Ascii.eqb c "X" = false.
Proof.
destruct c as [[] [] [] [] [] [] [] []]; cbv; intros H;
  try discriminate; repeat split.
Qed.

Lemma int16_two_digits c1 c2 :
  is_hex_digit c1 = true -> is_hex_digit c2 = true ->
  exists v, int16 (String c1 (String c2 EmptyString)) = Some v /\ is_byte v.
Proof.
intros H1 H2.
destruct (hex_digit_plain c1 H1) as [S1 [P1 [M1 [U1 _]]]].
destruct (hex_digit_plain c2 H2) as [S2 [_ [_ [U2 [X2 Y2]]]]].
unfold is_hex_digit in H1, H2.
destruct (HexString.ascii_to_digit c1) as [d1|] eqn:E1; [|discriminate].
destruct (HexString.ascii_to_digit c2) as [d2|] eqn:E2; [|discriminate].
apply hex_digit_bound in E1 as B1. apply hex_digit_bound in E2 as B2.
exists (16 * (16 * 0 + Z.of_N d1) + Z.of_N d2). split; [|unfold is_byte; lia].
unfold int16. cbn [lstrip_space]. rewrite S1.
cbn [rstrip_space]. rewrite S2. cbn [read_sign]. rewrite P1, M1.
cbn [skip_prefix_0x]. rewrite X2, Y2, andb_false_r, U1.
cbn [int16_digits]. rewrite U1, E1, U2, E2. reflexivity.
Qed.

(** A colour written by [random_hex_color] or [darken_hex] reads back as
    the bytes it was written from. *)
Lemma channels_formatted r g b :
  is_byte r -> is_byte g -> is_byte b ->
  let color := "#" ++ format_02x r ++ format_02x g ++ format_02x b in
  channels color = Some (r, g, b) /\ well_formed_colour color = true.
Proof.
intros Hr Hg Hb.
destruct (format_02x_byte r Hr) as [r1 [r2 [Er [Nr [Hr1 [Hr2 Ir]]]]]].
destruct (format_02x_byte g Hg) as [g1 [g2 [Eg [Ng [Hg1 [Hg2 Ig]]]]]].
destruct (format_02x_byte b Hb) as [b1 [b2 [Eb [Nb [Hb1 [Hb2 Ib]]]]]].
cbn zeta. rewrite Er, Eg, Eb. unfold channels, well_formed_colour.
cbn [append lstrip_hash]. rewrite Nr.
change (Ascii.eqb "#" "#") with true. cbn iota.
cbn [substring String.length Nat.eqb list_ascii_of_string forallb].
rewrite Ir, Ig, Ib, Hr1, Hr2, Hg1, Hg2, Hb1, Hb2. split; reflexivity.
Qed.

Lemma channels_well_formed color :
  well_formed_colour color = true ->
  exists r g b, channels color = Some (r, g, b)
                /\ is_byte r /\ is_byte g /\ is_byte b.
Proof.
unfold well_formed_colour, channels. cbn zeta.
destruct (lstrip_hash color) as [|c1 [|c2 [|c3 [|c4 [|c5 [|c6 [|c7 s]]]]]]];
  try discriminate.
cbn [String.length Nat.eqb list_ascii_of_string forallb andb substring].
intros H.
repeat match goal with
       | H : _ && _ = true |- _ => apply andb_true_iff in H; destruct H
       end.
destruct (int16_two_digits c1 c2) as [r [Er Hr]]; try assumption.
destruct (int16_two_digits c3 c4) as [g [Eg Hg]]; try assumption.
destruct (int16_two_digits c5 c6) as [b [Eb Hb]]; try assumption.
rewrite Er, Eg, Eb. exists r, g, b. auto.
Qed.

(** One application of [darken_hex] with factor 0.72 on binary64. *)
Lemma darken_hex_once color :
  well_formed_colour color = true ->
  exists ch out,
    channels color = Some ch
    /\ darken_hex (F := float) color lit_0_72 = Some out
    /\ well_formed_colour out = true
    /\ channels out = Some (darkened ch)
    /\ le3 (darkened ch) ch.
Proof.
intros Hwf. destruct (channels_well_formed color Hwf)
  as [r [g [b [Ech [Hr [Hg Hb]]]]]].
destruct (darken_channel_byte r Hr) as [Dr [Br Lr]].
destruct (darken_channel_byte g Hg) as [Dg [Bg Lg]].
destruct (darken_channel_byte b Hb) as [Db [Bb Lb]].
exists (r, g, b). eexists. split; [exact Ech|].
unfold darken_hex. rewrite Ech, Dr, Dg, Db.
split; [reflexivity|].
destruct (channels_formatted _ _ _ Br Bg Bb) as [C W]. cbn zeta in C, W.
split; [exact W|]. split; [exact C|]. cbn [le3 darkened]. auto.
Qed.

(** C7: for every well-formed colour of six hexadecimal digits, each
    channel of darken(color, 0.72) is the channel multiplied by 0.72 and
    truncated to an integer, and is <= the channel of the original colour;
    a second application again lowers or keeps every channel. *)
Theorem darken_is_channelwise_decreasing (color : string) :
  well_formed_colour color = true ->
  exists ch once twice,
    channels color = Some ch
    /\ darken_hex (F := float) color lit_0_72 = Some once
    /\ channels once = Some (darkened ch)
    /\ le3 (darkened ch) ch
    /\ darken_hex (F := float) once lit_0_72 = Some twice
    /\ channels twice = Some (darkened (darkened ch))
    /\ le3 (darkened (darkened ch)) (darkened ch).
Proof.
intros Hwf.
destruct (darken_hex_once color Hwf) as [ch [once [E1 [D1 [W1 [C1 L1]]]]]].
destruct (darken_hex_once once W1) as [ch' [twice [E2 [D2 [W2 [C2 L2]]]]]].
rewrite C1 in E2. inversion E2; subst ch'.
exists ch, once, twice. auto 10.
Qed.

Lemma darken_is_channelwise_decreasing_witness :
  well_formed_colour "#8989a5" = true
  /\ exists ch once twice,
    channels "#8989a5" = Some ch
    /\ darken_hex (F := float) "#8989a5" lit_0_72 = Some once
    /\ channels once = Some (darkened ch)
    /\ le3 (darkened ch) ch
    /\ darken_hex (F := float) once lit_0_72 = Some twice
    /\ channels twice = Some (darkened (darkened ch))
    /\ le3 (darkened (darkened ch)) (darkened ch).
Proof.
split; [reflexivity|].
apply (darken_is_channelwise_decreasing "#8989a5"). reflexivity.
Defined.

Local Close Scope string_scope.

(* ================================================================== *)
(** * The emission loop *)

Section SnakeAnyArithmetic.
Context {F : Type} {AF : Arith F}.

Lemma length_snake_row (step : F) columns row_step row :
  List.length (snake_row step columns row_step row) = Z.to_nat columns.
Proof.
unfold snake_row. destruct (row mod 2 =? 0);
  rewrite length_map, ?length_range, ?length_range_down; lia.
Qed.

Lemma snake_productive (step : F) columns row_gap :
  productive (snake_points step columns row_gap) (fun _ => True).
Proof.
split; [exact I|]. intros row _. split; [|exact I].
cbn [body snake_points fst]. intros E.
apply (f_equal (@List.length _)) in E.
rewrite length_snake_row in E. cbn [List.length] in E. lia.
Qed.

End SnakeAnyArithmetic.

Section EmissionFacts.
Context {F : Type} {AF : Arith F} {LF : Libm F} {RNG : PyRandom}.

(** No pattern is ever exhausted. *)
Lemma pattern_points_total (args : Args) n :
  exists p, gen_nth (pattern_points args) n = Some p.
Proof.
unfold pattern_points. destruct (pattern args).
- eapply gen_total. apply snake_productive.
- eapply gen_total. apply square_productive.
- eapply gen_total. apply circle_productive.
- eapply gen_total. apply spiral_productive.
Qed.

Lemma random_hex_color_formatted (rng : Rng) :
  exists r g b,
    is_byte r /\ is_byte g /\ is_byte b
    /\ fst (random_hex_color rng)
       = ("#" ++ format_02x r ++ format_02x g ++ format_02x b)%string.
Proof.
unfold random_hex_color.
pose proof (randint_range 0 255 rng ltac:(lia)) as Hr.
destruct (randint 0 255 rng) as [r g1].
pose proof (randint_range 0 255 g1 ltac:(lia)) as Hg.
destruct (randint 0 255 g1) as [g g2].
pose proof (randint_range 0 255 g2 ltac:(lia)) as Hb.
destruct (randint 0 255 g2) as [b g3].
exists r, g, b. cbn [fst] in *. unfold is_byte. auto.
Qed.

(** [darken_hex] does not raise on a colour of [random_hex_color]. *)
Lemma darken_hex_total {TB : TruncatesBytes F} (rng : Rng) :
  exists border, darken_hex (fst (random_hex_color rng)) lit_0_72 = Some border.
Proof.
destruct (random_hex_color_formatted rng) as [r [g [b [Hr [Hg [Hb E]]]]]].
rewrite E. unfold darken_hex.
destruct (channels_formatted r g b Hr Hg Hb) as [C _]. cbn zeta in C.
rewrite C. unfold darken_channel.
destruct (trunc_byte r Hr) as [r' ->].
destruct (trunc_byte g Hg) as [g' ->].
destruct (trunc_byte b Hb) as [b' ->].
eexists. reflexivity.
Qed.

Lemma emit_sound sp args snk indices :
  forall points rng written,
  exists news,
    output (emit sp args snk indices points rng written) = written ++ news
    /\ (List.length news <= List.length indices)%nat
    /\ forall j o, nth_error news j = Some o ->
                   emitted args indices points rng j o.
Proof.
induction indices as [|index rest IH]; intros points rng written.
- exists []. cbn [emit output]. rewrite app_nil_r.
  split; [reflexivity|]. split; [cbn; lia|].
  intros [|j] o H; discriminate.
- cbn [emit next].
  assert (Hstop : exists news : list Obj,
    written = written ++ news
    /\ (List.length news <= List.length (index :: rest))%nat
    /\ forall j o, nth_error news j = Some o ->
                   emitted args (index :: rest) points rng j o).
  { exists []. rewrite app_nil_r.
    repeat split; [cbn; lia|]. intros [|j] o H; discriminate. }
  destruct (gen_nth (gen points) (pos points)) as [[dx dy]|] eqn:Ep;
    [|exact Hstop].
  destruct (random_hex_color rng) as [fill_ rng1] eqn:Ec.
  destruct (darken_hex fill_ lit_0_72) as [border|] eqn:Ed; [|exact Hstop].
  destruct (snk (List.length written));
    [|destruct sp; exact Hstop|exact Hstop].
  clear Hstop.
  match goal with
  | |- context [emit sp args snk rest ?it rng1 (written ++ [?o])] =>
      destruct (IH it rng1 (written ++ [o])) as [news [H1 [H2 H3]]];
      exists (o :: news)
  end.
  rewrite H1, <- app_assoc. split; [reflexivity|].
  split; [cbn [List.length]; lia|].
  intros [|j] o Ho.
  + cbn [nth_error] in Ho. inversion Ho; subst o.
    exists index, (dx, dy), border.
    unfold fill_at. cbn [rng_after nth_error]. rewrite Ec, Nat.add_0_r.
    cbn [fst]. auto.
  + cbn [nth_error] in Ho. destruct (H3 j o Ho)
      as [idx [p [b [G1 [G2 [G3 G4]]]]]].
    exists idx, p, b. cbn [nth_error gen pos] in *.
    unfold fill_at in *. cbn [rng_after]. rewrite Ec. cbn [snd].
    rewrite Nat.add_succ_r. auto.
Qed.

(** On an output that takes every record, the loop emits one record for
    every index and ends in [return 0]. *)
Lemma emit_complete {TB : TruncatesBytes F} sp args snk indices :
  forall points rng written,
  (forall n, exists p, gen_nth (gen points) n = Some p) ->
  (forall n, (n < List.length written + List.length indices)%nat ->
             snk n = Written) ->
  List.length (output (emit sp args snk indices points rng written))
  = (List.length written + List.length indices)%nat
  /\ exit (emit sp args snk indices points rng written) = Success.
Proof.
induction indices as [|index rest IH]; intros points rng written Hp Hs.
- cbn [emit output exit List.length]. split; [lia | reflexivity].
- cbn [emit next].
  destruct (Hp (pos points)) as [[dx dy] ->].
  destruct (darken_hex_total rng) as [border Hb].
  destruct (random_hex_color rng) as [fill_ rng1]. cbn [fst] in Hb.
  rewrite Hb. rewrite Hs by (cbn [List.length]; lia).
  match goal with
  | |- context [emit sp args snk rest ?it rng1 (written ++ [?o])] =>
      destruct (IH it rng1 (written ++ [o])) as [H1 H2]
  end.
  + exact Hp.
  + intros n Hn. apply Hs. rewrite length_app in Hn.
    cbn [List.length] in *. lia.
  + rewrite H1, H2, length_app. cbn [List.length]. split; [lia | reflexivity].
Qed.

End EmissionFacts.

#[export] Instance Binary64_truncates : TruncatesBytes float.
Proof.
constructor. intros c Hc.
destruct (darken_channel_byte c Hc) as [H _].
unfold darken_channel in H.
destruct (ftrunc (fmul (of_int c) lit_0_72)) as [v|]; [now exists v | discriminate].
Qed.

Section RunFacts.
Context {F : Type} {AF : Arith F} {LF : Libm F} {RNG : PyRandom}.

Lemma main_running env args :
  (count args <=? 0) = false -> fle (size args) (of_int 0) = false ->
  main env args
  = emit SIG_DFL args (sink env) (range 0 (count args))
         (iter (pattern_points args)) (initial_rng env args) [].
Proof. intros H1 H2. unfold main. cbv zeta. now rewrite H1, H2. Qed.

(** Every record of the output is the one the loop body builds for its
    position, whatever ends the run. *)
Lemma main_output_emitted env args j o :
  nth_error (output (main env args)) j = Some o ->
  emitted args (range 0 (count args)) (iter (pattern_points args))
          (initial_rng env args) j o.
Proof.
unfold main. cbv zeta.
destruct (count args <=? 0); [destruct j; discriminate|].
destruct (fle (size args) (of_int 0)); [destruct j; discriminate|].
intros H.
destruct (emit_sound SIG_DFL args (sink env) (range 0 (count args))
            (iter (pattern_points args)) (initial_rng env args) [])
  as [news [E [_ Hn]]].
cbn [app] in E. apply Hn. rewrite <- E. exact H.
Qed.

Lemma emitted_index args n points rng j o :
  emitted args (range 0 n) points rng j o ->
  z_index o = Z.of_nat j /\ kind o = kind_at (Z.of_nat j).
Proof.
intros [index [p [border [H1 [_ [_ ->]]]]]].
assert (Hj : (j < Z.to_nat (n - 0))%nat).
{ rewrite <- length_range. apply nth_error_Some. congruence. }
rewrite nth_error_range in H1 by assumption. inversion H1; subst index.
cbn [record_of z_index kind]. split; [lia|].
unfold kind_at. replace (0 + Z.of_nat j) with (Z.of_nat j) by lia.
rewrite (Zmod_even (Z.of_nat j)). now destruct (Z.even (Z.of_nat j)).
Qed.

(** A run with a positive count and a size that is not [<= 0], on an
    output that takes every record, writes [count] records and returns 0. *)
Lemma main_complete {TB : TruncatesBytes F} env args :
  0 < count args -> fle (size args) (of_int 0) = false ->
  (forall n, (n < Z.to_nat (count args))%nat -> sink env n = Written) ->
  List.length (output (main env args)) = Z.to_nat (count args)
  /\ exit (main env args) = Success.
Proof.
intros Hc Hs Hw.
rewrite main_running by (try apply Z.leb_gt; assumption).
destruct (emit_complete SIG_DFL args (sink env) (range 0 (count args))
            (iter (pattern_points args)) (initial_rng env args) [])
  as [H1 H2].
- intros n. apply pattern_points_total.
- intros n Hn. apply Hw. rewrite length_range in Hn.
  cbn [List.length] in Hn. replace (count args - 0) with (count args) in Hn by lia.
  lia.
- rewrite H1, H2, length_range. cbn [List.length].
  split; [f_equal; lia | reflexivity].
Qed.

Lemma map_by_nth_error {A B} (f : A -> B) (l : list A) (l' : list B) :
  List.length l = List.length l' ->
  (forall j a, nth_error l j = Some a -> nth_error l' j = Some (f a)) ->
  map f l = l'.
Proof.
revert l'. induction l as [|a l IH]; intros [|b l'] Hlen H;
  try discriminate; [reflexivity|].
cbn [map]. f_equal.
- specialize (H 0%nat a eq_refl). cbn in H. congruence.
- apply IH; [cbn in Hlen; lia|]. intros j x Hx. exact (H (Datatypes.S j) x Hx).
Qed.

End RunFacts.

(* ================================================================== *)
(** * Runs *)

Section RunClaims.
Context {F : Type} {AF : Arith F} {LF : Libm F} {RNG : PyRandom}.

(** C1, as amended: a run with count N whose size is not <= 0 (or with
    N <= 0), on an output that takes every record, emits exactly max(N,0)
    records and succeeds, and their z_index fields are 0, 1, .., N-1 in
    emission order. *)
Theorem main_emits_count {TB : TruncatesBytes F} (env : Env) (args : Args) :
  (0 < count args -> fle (size args) (of_int 0) = false) ->
  (forall n, (n < Z.to_nat (count args))%nat -> sink env n = Written) ->
  emits_count (main env args) (count args)
  /\ exit (main env args) = Success.
Proof.
intros Hs Hw. unfold emits_count.
destruct (Z.leb_spec (count args) 0) as [Hc|Hc].
- unfold main. apply Z.leb_le in Hc as Hc'. rewrite Hc'.
  cbn [output exit List.length map]. rewrite range_nil by lia.
  repeat split. lia.
- destruct (main_complete env args Hc (Hs Hc) Hw) as [Hlen Hex].
  split; [split|exact Hex].
  + rewrite Hlen. f_equal. lia.
  + apply map_by_nth_error.
    * rewrite Hlen, length_range. f_equal. lia.
    * intros j o Ho. apply main_output_emitted in Ho.
      destruct Ho as [index [p [border [H1 [_ [_ ->]]]]]]. exact H1.
Qed.

(** C2, as amended: with size <= 0 the run produces no output; it fails
    with the usage error when count > 0, and returns 0 when count <= 0,
    because the count is tested first. *)
Theorem size_guard_after_count_guard (env : Env) (args : Args) :
  fle (size args) (of_int 0) = true ->
  output (main env args) = []
  /\ exit (main env args) = if count args <=? 0 then Success else UsageError.
Proof.
intros Hs. unfold main.
destruct (count args <=? 0); [split; reflexivity|].
rewrite Hs. split; reflexivity.
Qed.

(** C9: the record at emission index i has kind "rectangle" when i is
    even and "ellipse" when i is odd, and z_index i, whatever the pattern,
    the seed and the rest of the configuration. *)
Theorem kind_alternates (env : Env) (args : Args) (i : nat) (o : Obj) :
  nth_error (output (main env args)) i = Some o ->
  kind o = kind_at (Z.of_nat i) /\ z_index o = Z.of_nat i.
Proof.
intros H. apply main_output_emitted in H.
apply emitted_index in H. tauto.
Qed.

(** C8: two runs seeded with the same integer draw the same colours: the
    fill and stroke of the j-th record depend on the seed and on j alone,
    so runs that emit equally many records have identical colour
    sequences, whatever the entropy of the machine, the output and the
    other options are. *)
Theorem colours_reproducible (env1 env2 : Env) (args1 args2 : Args) (s : Z) :
  seed args1 = Some s -> seed args2 = Some s ->
  List.length (output (main env1 args1)) = List.length (output (main env2 args2)) ->
  map colours (output (main env1 args1)) = map colours (output (main env2 args2)).
Proof.
intros S1 S2 Hlen. apply map_by_nth_error.
- now rewrite length_map.
- intros j o1 H1. rewrite nth_error_map.
  destruct (nth_error (output (main env2 args2)) j) as [o2|] eqn:H2.
  2:{ apply nth_error_None in H2.
      assert (j < List.length (output (main env1 args1)))%nat
        by (apply nth_error_Some; congruence). lia. }
  apply main_output_emitted in H1, H2.
  destruct H1 as [i1 [p1 [b1 [_ [_ [D1 ->]]]]]].
  destruct H2 as [i2 [p2 [b2 [_ [_ [D2 ->]]]]]].
  unfold initial_rng in *. rewrite S1 in *. rewrite S2 in *.
  rewrite D1 in D2. inversion D2; subst b2. reflexivity.
Qed.

End RunClaims.

Lemma main_emits_count_counterexample :
  ~ emits_count (main (LF := libm_absent) env0 (args_b64 3 0%float)) 3.
Proof. intros [H _]. vm_compute in H. discriminate. Qed.

Lemma main_emits_count_witness :
  emits_count (main (LF := libm_absent) env0 (args_b64 3 10%float)) 3
  /\ exit (main (LF := libm_absent) env0 (args_b64 3 10%float)) = Success.
Proof.
apply (main_emits_count (LF := libm_absent) env0 (args_b64 3 10%float)).
- intros _. reflexivity.
- intros n _. reflexivity.
Defined.

Lemma size_guard_counterexample :
  fle (size (args_b64 0 0%float)) (of_int 0) = true
  /\ ~ usage_failure (main (LF := libm_absent) env0 (args_b64 0 0%float)).
Proof. split; [reflexivity|]. intros [_ H]. vm_compute in H. discriminate. Qed.

Lemma size_guard_after_count_guard_witness :
  fle (size (args_b64 3 0%float)) (of_int 0) = true
  /\ output (main (LF := libm_absent) env0 (args_b64 3 0%float)) = []
  /\ exit (main (LF := libm_absent) env0 (args_b64 3 0%float)) = UsageError.
Proof.
split; [reflexivity|].
apply (size_guard_after_count_guard (LF := libm_absent) env0
         (args_b64 3 0%float)).
reflexivity.
Defined.

(** The five records of a snake example, one by one. *)
Ltac snake_record E j :=
  let H := fresh "H" in
  let index := fresh "index" in
  let p := fresh "p" in
  let border := fresh "border" in
  let H1 := fresh "H" in
  let H2 := fresh "H" in
  match type of E with
  | output (main ?env ?args) = ?l =>
      match eval cbv [nth_error] in (nth_error l j) with
      | Some ?o =>
          assert (H : nth_error (output (main env args)) j = Some o)
            by (rewrite E; reflexivity);
          apply main_output_emitted in H;
          destruct H as [index [p [border [H1 [H2 [_ H]]]]]];
          vm_compute in H1; vm_compute in H2;
          inversion H1; inversion H2; subst index p; clear H1 H2
      end
  end.

Ltac snake_run gap :=
  intros LF RNG e; cbv zeta;
  destruct (main_complete (LF := LF)
              {| entropy := e; sink := accepting |} (snake_example gap))
    as [Hlen _]; [reflexivity | reflexivity | intros n _; reflexivity |];
  destruct (output (main {| entropy := e; sink := accepting |}
                         (snake_example gap)))
    as [|o0 [|o1 [|o2 [|o3 [|o4 [|o5 l]]]]]] eqn:E; try discriminate Hlen;
  snake_record E 0%nat; snake_record E 1%nat; snake_record E 2%nat;
  snake_record E 3%nat; snake_record E 4%nat; subst; clear Hlen E.

Lemma snake_example_default_gap :
  forall (LF : Libm float) (RNG : PyRandom) (e : Z),
  let run := main {| entropy := e; sink := accepting |}
                  (snake_example (row_gap default_args)) in
  map position (output run)
  = [(0, 0); (10, 0); (10, 20); (0, 20); (0, 40)]%float
  /\ map z_index (output run) = [0; 1; 2; 3; 4]
  /\ map kind (output run)
     = ["rectangle"; "ellipse"; "rectangle"; "ellipse"; "rectangle"]%string.
Proof.
snake_run (row_gap (F := float) default_args).
repeat split; vm_compute; reflexivity.
Qed.

Lemma snake_example_no_gap :
  forall (LF : Libm float) (RNG : PyRandom) (e : Z),
  let run := main {| entropy := e; sink := accepting |}
                  (snake_example 0%float) in
  map position (output run) = listed_snake_points
  /\ map z_index (output run) = [0; 1; 2; 3; 4]
  /\ map kind (output run)
     = ["rectangle"; "ellipse"; "rectangle"; "ellipse"; "rectangle"]%string.
Proof. snake_run 0%float. repeat split; vm_compute; reflexivity. Qed.

(** C3, as amended: with count=5, pattern=snake, size=10, columns=2 and
    the other options at their defaults, row-gap being 10.0, the rows are
    size + row-gap = 20 apart and the run emits the points
    (0,0),(10,0),(10,20),(0,20),(0,40) in that order, with z_index 0..4 and
    kinds rectangle,ellipse,rectangle,ellipse,rectangle; the points
    (0,0),(10,0),(10,10),(0,10),(0,20) are those of row-gap 0. *)
Theorem snake_example_run :
  forall (LF : Libm float) (RNG : PyRandom) (e : Z),
  let run gap := main {| entropy := e; sink := accepting |} (snake_example gap) in
  row_gap (F := float) default_args = 10%float
  /\ map position (output (run 10%float))
     = [(0, 0); (10, 0); (10, 20); (0, 20); (0, 40)]%float
  /\ map z_index (output (run 10%float)) = [0; 1; 2; 3; 4]
  /\ map kind (output (run 10%float))
     = ["rectangle"; "ellipse"; "rectangle"; "ellipse"; "rectangle"]%string
  /\ map position (output (run 0%float)) = listed_snake_points.
Proof.
intros LF RNG e run. split; [reflexivity|].
destruct (snake_example_default_gap LF RNG e) as [A [B C]].
destruct (snake_example_no_gap LF RNG e) as [D _].
repeat split; assumption.
Qed.

Lemma snake_example_counterexample :
  map position
      (output (main (LF := libm_absent) env0
                    (snake_example (row_gap default_args))))
  <> listed_snake_points.
Proof.
intros H.
apply (f_equal (fun l => match nth_error l 2 with
                         | Some (_, y) => PrimFloat.leb y 15
                         | None => true
                         end)) in H.
vm_compute in H. discriminate.
Qed.

Lemma kind_alternates_witness :
  kind_at (Z.of_nat 1) = "ellipse"%string
  /\ exists o,
       nth_error (output (main (LF := libm_absent) env0 (args_b64 3 10%float))) 1
       = Some o
       /\ kind o = kind_at (Z.of_nat 1) /\ z_index o = Z.of_nat 1.
Proof.
split; [reflexivity|]. eexists. split; [vm_compute; reflexivity|].
eapply (kind_alternates (LF := libm_absent) env0 (args_b64 3 10%float) 1).
vm_compute. reflexivity.
Defined.

Lemma colours_reproducible_witness :
  map colours (output (main (LF := libm_absent) env0 (args_b64 3 10%float)))
  = map colours
        (output (main (LF := libm_absent)
                      {| entropy := 99; sink := accepting |}
                      (args_b64 3 10%float))).
Proof.
apply (colours_reproducible (LF := libm_absent) env0
         {| entropy := 99; sink := accepting |}
         (args_b64 3 10%float) (args_b64 3 10%float) 42);
  reflexivity.
Defined.

(* ================================================================== *)
(** * Further properties: the snake *)

Lemma nth_error_range_down a b i :
  (i < Z.to_nat (a - b))%nat ->
  nth_error (range_down a b) i = Some (a - Z.of_nat i).
Proof.
intros H. unfold range_down.
rewrite nth_error_map, nth_error_seq.
destruct (Nat.ltb_spec i (Z.to_nat (a - b))); [reflexivity | lia].
Qed.

(** A loop whose every iteration yields [c] values: value [n] is value
    [n mod c] of iteration [n / c]. *)
Lemma nth_error_unroll_uniform {A S} (b : S -> list A * S) (c : nat) :
  (0 < c)%nat ->
  (forall s, List.length (fst (b s)) = c) ->
  forall k s n, (n < k * c)%nat ->
  nth_error (unroll b s k) n
  = nth_error (fst (b (locals_after b s (n / c)))) (n mod c).
Proof.
intros Hc Hlen. induction k as [|k IH]; intros s n Hn; [lia|].
cbn [unroll]. specialize (Hlen s) as Hs.
destruct (b s) as [ys s'] eqn:E. cbn [fst] in Hs.
destruct (Nat.lt_ge_cases n c) as [Hlt|Hge].
- rewrite nth_error_app1 by lia.
  rewrite Nat.div_small, Nat.mod_small by assumption.
  cbn [locals_after]. now rewrite E.
- rewrite nth_error_app2 by lia. rewrite Hs.
  rewrite IH by (cbn in Hn; lia).
  replace n with ((n - c) + 1 * c)%nat at 3 4 by lia.
  rewrite Nat.div_add, Nat.Div0.mod_add by lia.
  replace ((n - c) / c + 1)%nat with (Datatypes.S ((n - c) / c)) by lia.
  cbn [locals_after]. now rewrite E.
Qed.

Section SnakeCells.
Context {F : Type} {AF : Arith F}.

Lemma snake_locals_after (step : F) columns row_gap row k :
  locals_after (body (snake_points step columns row_gap)) row k
  = row + Z.of_nat k.
Proof.
revert row. induction k as [|k IH]; intros row; cbn [locals_after]; [lia|].
cbn [body snake_points snd]. rewrite IH. lia.
Qed.

Lemma snake_nth_cell (step : F) (columns : Z) (row_gap : F) (n : nat) :
  gen_nth (snake_points step columns row_gap) n
  = Some (fmul (of_int (fst (snake_cell columns n))) step,
          fmul (of_int (snd (snake_cell columns n))) (fadd step row_gap)).
Proof.
set (c := Z.max columns 1).
assert (Hc : (0 < Z.to_nat c)%nat) by lia.
unfold gen_nth.
change (yields_upto (snake_points step columns row_gap) (Datatypes.S n))
  with (unroll (body (snake_points step columns row_gap)) 0 (Datatypes.S n)).
rewrite (nth_error_unroll_uniform _ (Z.to_nat c) Hc).
2:{ intros s. cbn [body snake_points fst]. apply length_snake_row. }
2:{ nia. }
rewrite snake_locals_after. cbn [body snake_points fst].
fold c. unfold snake_cell. fold c. cbn zeta. cbn [fst snd].
assert (Hrow : 0 + Z.of_nat (n / Z.to_nat c) = Z.of_nat n / c).
{ rewrite Nat2Z.inj_div, Z2Nat.id by lia. lia. }
assert (Hi : Z.of_nat (n mod Z.to_nat c) = Z.of_nat n mod c).
{ rewrite Nat2Z.inj_mod, Z2Nat.id by lia. reflexivity. }
assert (Hb : (n mod Z.to_nat c < Z.to_nat c)%nat) by (apply Nat.mod_upper_bound; lia).
rewrite Hrow. unfold snake_row.
rewrite (Zmod_even (Z.of_nat n / c)).
destruct (Z.even (Z.of_nat n / c)); cbn [Z.eqb].
- rewrite nth_error_map, nth_error_range by lia. cbn [option_map].
  rewrite Hi. reflexivity.
- rewrite nth_error_map, nth_error_range_down by lia. cbn [option_map].
  rewrite Hi. reflexivity.
Qed.

(** X1: the [n]-th point of the snake, in every arithmetic: the cell
    (col, row) with row = n div c and col = n mod c in an even row,
    c - 1 - n mod c in an odd one, where c = max(columns, 1); the point is
    (col * step, row * (step + row_gap)). *)
Theorem snake_nth_point (step : F) (columns : Z) (row_gap : F) (n : nat) :
  let c := Z.max columns 1 in
  let row := Z.of_nat n / c in
  let i := Z.of_nat n mod c in
  let col := if Z.even row then i else c - 1 - i in
  gen_nth (snake_points step columns row_gap) n
  = Some (fmul (of_int col) step, fmul (of_int row) (fadd step row_gap)).
Proof. cbn zeta. rewrite snake_nth_cell. reflexivity. Qed.

End SnakeCells.

Lemma snake_cell_next (columns : Z) (n : nat) :
  let c := Z.max columns 1 in
  let '(col, row) := snake_cell columns n in
  let '(col', row') := snake_cell columns (Datatypes.S n) in
  0 <= col < c /\ 0 <= row
  /\ ((row' = row /\ Z.abs (col' - col) = 1) \/ (row' = row + 1 /\ col' = col)).
Proof.
cbn zeta. unfold snake_cell. cbn zeta.
set (c := Z.max columns 1). assert (Hc : 0 < c) by lia.
rewrite Nat2Z.inj_succ. set (m := Z.of_nat n). assert (Hm : 0 <= m) by lia.
pose proof (Z.mod_pos_bound m c Hc) as Hi.
pose proof (Z.div_pos m c Hm Hc) as Hq.
pose proof (Z.div_mod m c ltac:(lia)) as Hdm.
destruct (Z.lt_ge_cases (m mod c + 1) c) as [Hin|Hend].
- assert (Hq' : Z.succ m / c = m / c).
  { symmetry. apply Z.div_unique with (r := m mod c + 1); lia. }
  assert (Hi' : Z.succ m mod c = m mod c + 1).
  { symmetry. apply Z.mod_unique with (q := m / c); lia. }
  rewrite Hq', Hi'. destruct (Z.even (m / c)); lia.
- assert (Hq' : Z.succ m / c = m / c + 1).
  { symmetry. apply Z.div_unique with (r := 0); lia. }
  assert (Hi' : Z.succ m mod c = 0).
  { symmetry. apply Z.mod_unique with (q := m / c + 1); lia. }
  rewrite Hq', Hi'.
  replace (m / c + 1) with (Z.succ (m / c)) by lia.
  rewrite Z.even_succ, <- Z.negb_even.
  destruct (Z.even (m / c)); cbn [negb]; lia.
Qed.

Section SnakeWalk.
Context {F : Type} {AF : Arith F}.

(** X2: the snake is a boustrophedon, in every arithmetic: its n-th and
    (n+1)-th points are (col * step, row * pitch) and (col' * step,
    row' * pitch) for cells with 0 <= col < max(columns,1), 0 <= row, that
    are neighbours: one column apart in the same row, or in the same column
    of the next row. *)
Theorem snake_steps_to_neighbours (step : F) (columns : Z) (row_gap : F)
  (n : nat) :
  exists col row col' row',
    gen_nth (snake_points step columns row_gap) n
    = Some (fmul (of_int col) step, fmul (of_int row) (fadd step row_gap))
    /\ gen_nth (snake_points step columns row_gap) (Datatypes.S n)
       = Some (fmul (of_int col') step, fmul (of_int row') (fadd step row_gap))
    /\ 0 <= col < Z.max columns 1 /\ 0 <= row
    /\ ((row' = row /\ Z.abs (col' - col) = 1)
        \/ (row' = row + 1 /\ col' = col)).
Proof.
pose proof (snake_cell_next columns n) as H. cbn zeta in H.
pose proof (snake_nth_cell step columns row_gap n) as H1.
pose proof (snake_nth_cell step columns row_gap (Datatypes.S n)) as H2.
destruct (snake_cell columns n) as [col row].
destruct (snake_cell columns (Datatypes.S n)) as [col' row'].
exists col, row, col', row'. cbn [fst snd] in H1, H2. tauto.
Qed.

(** X3: a column count of 1 or less, zero and negative counts included,
    gives a single column: the n-th point is (0 * step, n * pitch). *)
Theorem snake_single_column (step : F) (columns : Z) (row_gap : F) (n : nat) :
  columns <= 1 ->
  gen_nth (snake_points step columns row_gap) n
  = Some (fmul (of_int 0) step, fmul (of_int (Z.of_nat n)) (fadd step row_gap)).
Proof.
intros Hc. rewrite snake_nth_cell. unfold snake_cell. cbn zeta.
replace (Z.max columns 1) with 1 by lia.
rewrite Z.mod_1_r, Z.div_1_r. cbn [fst snd].
destruct (Z.even (Z.of_nat n)); reflexivity.
Qed.

End SnakeWalk.

Lemma snake_single_column_witness :
  (-3 <= 1)
  /\ gen_nth (snake_points 10%float (-3) 10%float) 2
     = Some (fmul (of_int 0) 10%float,
             fmul (of_int (Z.of_nat 2)) (fadd 10%float 10%float)).
Proof.
split; [lia|]. apply (snake_single_column 10%float (-3) 10%float 2). lia.
Defined.

(* ================================================================== *)
(** * Further properties: the emission loop *)

Lemma prefix_by_nth_error {A} (l1 l2 : list A) :
  (forall j a, nth_error l1 j = Some a -> nth_error l2 j = Some a) ->
  l1 = firstn (List.length l1) l2.
Proof.
revert l2. induction l1 as [|a l1 IH]; intros l2 H; [reflexivity|].
destruct l2 as [|b l2]; [specialize (H 0%nat a eq_refl); discriminate|].
cbn [List.length firstn]. f_equal.
- specialize (H 0%nat a eq_refl). cbn in H. congruence.
- apply IH. intros j x Hx. exact (H (Datatypes.S j) x Hx).
Qed.

(** Up to the first record the output refuses, if there is one. *)
Lemma first_refusal (snk : nat -> WriteResult) (n : nat) :
  (forall i, (i < n)%nat -> snk i = Written)
  \/ exists k, (k < n)%nat /\ (forall i, (i < k)%nat -> snk i = Written)
               /\ snk k <> Written.
Proof.
induction n as [|n [IH|[k [Hk [Ha Hr]]]]].
- left. intros i Hi. lia.
- destruct (snk n) eqn:E.
  + left. intros i Hi. destruct (Nat.eq_dec i n); [subst; exact E | apply IH; lia].
  + right. exists n. repeat split; [lia | exact IH | congruence].
  + right. exists n. repeat split; [lia | exact IH | congruence].
- right. exists k. repeat split; [lia | exact Ha | exact Hr].
Qed.

Section EmissionExtras.
Context {F : Type} {AF : Arith F} {LF : Libm F} {RNG : PyRandom}.

(** The record at a position is determined by the arguments, the position
    and the generator state at loop entry. *)
Lemma emitted_functional (args : @Args F) indices points rng j o1 o2 :
  emitted args indices points rng j o1 ->
  emitted args indices points rng j o2 -> o1 = o2.
Proof.
intros [i1 [p1 [b1 [A1 [B1 [C1 ->]]]]]] [i2 [p2 [b2 [A2 [B2 [C2 ->]]]]]].
congruence.
Qed.

(** The loop on an output that takes [k] records and refuses the next,
    under the default disposition of SIGPIPE. *)
Lemma emit_refused {TB : TruncatesBytes F} args snk indices :
  forall (k : nat) points rng written,
  (forall n, exists p, gen_nth (gen points) n = Some p) ->
  (k < List.length indices)%nat ->
  (forall n, (List.length written <= n < List.length written + k)%nat ->
             snk n = Written) ->
  snk (List.length written + k)%nat <> Written ->
  List.length (output (emit SIG_DFL args snk indices points rng written))
  = (List.length written + k)%nat
  /\ exit (emit SIG_DFL args snk indices points rng written)
     = exit_on (snk (List.length written + k)%nat).
Proof.
induction indices as [|index rest IH]; intros k points rng written Hp Hk Hw Hr;
  [cbn in Hk; lia|].
cbn [emit next].
destruct (Hp (pos points)) as [[dx dy] ->].
destruct (darken_hex_total rng) as [border Hb].
destruct (random_hex_color rng) as [fill_ rng1]. cbn [fst] in Hb. rewrite Hb.
destruct k as [|k].
- rewrite Nat.add_0_r in *.
  destruct (snk (List.length written)); [contradiction| |];
    cbn [output exit exit_on]; split; reflexivity.
- rewrite (Hw (List.length written)) by lia.
  match goal with
  | |- context [emit SIG_DFL args snk rest ?it rng1 (written ++ [?o])] =>
      destruct (IH k it rng1 (written ++ [o])) as [H1 H2]
  end.
  + exact Hp.
  + cbn [List.length] in Hk. lia.
  + intros n Hn. rewrite length_app in Hn. cbn [List.length] in Hn.
    apply Hw. lia.
  + rewrite length_app. cbn [List.length].
    replace (List.length written + 1 + k)%nat
      with (List.length written + Datatypes.S k)%nat by lia. exact Hr.
  + rewrite length_app in H1, H2. cbn [List.length] in H1, H2.
    replace (List.length written + 1 + k)%nat
      with (List.length written + Datatypes.S k)%nat in H1, H2 by lia.
    split; assumption.
Qed.

(** Two runs of the same arguments on the same machine write the same
    record at every position both reach. *)
Lemma main_same_records env1 env2 (args : @Args F) j o1 o2 :
  entropy env1 = entropy env2 ->
  nth_error (output (main env1 args)) j = Some o1 ->
  nth_error (output (main env2 args)) j = Some o2 ->
  o1 = o2.
Proof.
intros He H1 H2. apply main_output_emitted in H1, H2.
unfold initial_rng in *. rewrite He in H1.
exact (emitted_functional _ _ _ _ _ _ _ H1 H2).
Qed.

Lemma main_refused {TB : TruncatesBytes F} (env : Env) (args : @Args F)
  (k : nat) :
  fle (size args) (of_int 0) = false ->
  Z.of_nat k < count args ->
  (forall n, (n < k)%nat -> sink env n = Written) ->
  sink env k <> Written ->
  List.length (output (main env args)) = k
  /\ exit (main env args) = exit_on (sink env k).
Proof.
intros Hs Hk Hw Hr.
assert (Hc : (count args <=? 0) = false) by (apply Z.leb_gt; lia).
rewrite (main_running env args Hc Hs).
destruct (emit_refused args (sink env) (range 0 (count args)) k
            (iter (pattern_points args)) (initial_rng env args) [])
  as [H1 H2].
- intros n. apply pattern_points_total.
- rewrite length_range. lia.
- intros n Hn. cbn [List.length] in Hn. apply Hw. lia.
- exact Hr.
- cbn [List.length Nat.add] in H1, H2. split; assumption.
Qed.

(** X4: when the output takes the first K records of a run with
    count > K and size not <= 0 and refuses the next one, exactly those K
    records are written, the same records a run on an unobstructed output
    starts with; if the refusal is a closed pipe the process is killed by
    SIGPIPE, whose default disposition line 139 restores (the handler of
    BrokenPipeError is not reached), and otherwise the run fails with the
    exception. *)
Theorem refused_write_ends_run {TB : TruncatesBytes F} (env : Env)
  (args : @Args F) (k : nat) :
  fle (size args) (of_int 0) = false ->
  Z.of_nat k < count args ->
  (forall n, (n < k)%nat -> sink env n = Written) ->
  sink env k <> Written ->
  output (main env args) = firstn k (output (main (unobstructed env) args))
  /\ List.length (output (main env args)) = k
  /\ exit (main env args) = exit_on (sink env k).
Proof.
intros Hs Hk Hw Hr.
destruct (main_refused env args k Hs Hk Hw Hr) as [H1 H2].
split; [|split; assumption].
rewrite <- H1 at 1. apply prefix_by_nth_error.
intros j o Ho.
assert (Hj : (j < k)%nat).
{ rewrite <- H1. apply nth_error_Some. congruence. }
destruct (main_complete (unobstructed env) args ltac:(lia) Hs
            ltac:(intros; reflexivity)) as [Hlen _].
destruct (nth_error (output (main (unobstructed env) args)) j) as [o'|] eqn:E.
- f_equal. symmetry.
  exact (main_same_records env (unobstructed env) args j o o' eq_refl Ho E).
- apply nth_error_None in E. lia.
Qed.

(** X5: the script itself never raises once the size is accepted: a run
    ends in an uncaught exception only when a write to the output raises
    one; a closed pipe does not do that, it kills the process. *)
Theorem failure_comes_from_output {TB : TruncatesBytes F} (env : Env)
  (args : @Args F) :
  exit (main env args) = Failure ->
  exists n, Z.of_nat n < count args /\ sink env n = WriteError.
Proof.
intros Hf. unfold main in Hf. cbv zeta in Hf.
destruct (count args <=? 0) eqn:Hc; [discriminate|].
destruct (fle (size args) (of_int 0)) eqn:Hs; [discriminate|].
apply Z.leb_gt in Hc.
destruct (first_refusal (sink env) (Z.to_nat (count args)))
  as [Hall|[k [Hk [Ha Hr]]]].
- destruct (main_complete env args Hc Hs Hall) as [_ He].
  unfold main in He. cbv zeta in He.
  apply Z.leb_gt in Hc. rewrite Hc, Hs in He. congruence.
- destruct (main_refused env args k) as [_ He]; try assumption; try lia.
  unfold main in He. cbv zeta in He.
  apply Z.leb_gt in Hc as Hc'. rewrite Hc', Hs in He.
  rewrite Hf in He. exists k. split; [lia|].
  destruct (sink env k); [contradiction | discriminate | reflexivity].
Qed.

End EmissionExtras.

Lemma refused_write_ends_run_witness :
  List.length (output (main (LF := libm_absent) (closing_after 2 PipeClosed)
                            (args_b64 5 10%float))) = 2%nat
  /\ exit (main (LF := libm_absent) (closing_after 2 PipeClosed)
                (args_b64 5 10%float)) = Killed.
Proof.
refine (proj2 (refused_write_ends_run (LF := libm_absent)
                 (closing_after 2 PipeClosed) (args_b64 5 10%float) 2
                 _ _ _ _)).
- reflexivity.
- reflexivity.
- intros [|[|n]] Hn; [reflexivity | reflexivity | lia].
- discriminate.
Defined.

Lemma failure_comes_from_output_witness :
  exit (main (LF := libm_absent) (closing_after 1 WriteError)
             (args_b64 5 10%float)) = Failure
  /\ exists n, Z.of_nat n < 5 /\ sink (closing_after 1 WriteError) n = WriteError.
Proof.
split; [reflexivity|].
apply (failure_comes_from_output (LF := libm_absent)
         (closing_after 1 WriteError) (args_b64 5 10%float)).
reflexivity.
Defined.

Lemma all_bytes_format_lower_case :
  forallb byte_formats_lower_case (range 0 256) = true.
Proof. vm_compute. reflexivity. Qed.

Lemma format_02x_lower_case v :
  is_byte v ->
  exists c1 c2,
    format_02x v = String c1 (String c2 EmptyString)
    /\ is_lower_hex_digit c1 = true /\ is_lower_hex_digit c2 = true.
Proof.
intros Hv. pose proof all_bytes_format_lower_case as H.
rewrite forallb_forall in H. specialize (H v (byte_in_range v Hv)).
unfold byte_formats_lower_case in H.
destruct (format_02x v) as [|c1 [|c2 [|c3 s]]]; try discriminate.
apply andb_true_iff in H. destruct H as [H1 H2]. exists c1, c2. auto.
Qed.

(** The colour written for three bytes is ["#"] and six lower-case
    digits. *)
Lemma write_colour_lower_case r g b :
  is_byte r -> is_byte g -> is_byte b ->
  lower_case_colour
    ("#" ++ format_02x r ++ format_02x g ++ format_02x b)%string = true.
Proof.
intros Hr Hg Hb.
destruct (format_02x_lower_case r Hr) as [r1 [r2 [-> [R1 R2]]]].
destruct (format_02x_lower_case g Hg) as [g1 [g2 [-> [G1 G2]]]].
destruct (format_02x_lower_case b Hb) as [b1 [b2 [-> [B1 B2]]]].
cbn [append lower_case_colour String.length Nat.eqb list_ascii_of_string
     forallb].
rewrite R1, R2, G1, G2, B1, B2. reflexivity.
Qed.

Section RecordFacts.
Context {F : Type} {AF : Arith F} {LF : Libm F} {RNG : PyRandom}.

Lemma emit_exit sp (args : @Args F) snk indices :
  forall points rng written,
  exit (emit sp args snk indices points rng written) <> UsageError.
Proof.
induction indices as [|index rest IH]; intros points rng written;
  [cbn; discriminate|].
cbn [emit next].
destruct (gen_nth (gen points) (pos points)) as [[dx dy]|]; [|cbn; discriminate].
destruct (random_hex_color rng) as [fill_ rng1].
destruct (darken_hex fill_ lit_0_72) as [border|]; [|cbn; discriminate].
destruct (snk (List.length written));
  [apply IH | destruct sp; cbn; discriminate | cbn; discriminate].
Qed.

(** X6: the usage error is raised exactly for a positive count with a
    size <= 0; no other configuration and no behaviour of the output ends a
    run with it. *)
Theorem usage_error_iff (env : Env) (args : @Args F) :
  exit (main env args) = UsageError
  <-> 0 < count args /\ fle (size args) (of_int 0) = true.
Proof.
unfold main. cbv zeta. destruct (Z.leb_spec (count args) 0) as [Hc|Hc].
- cbn [exit]. split; [discriminate | lia].
- destruct (fle (size args) (of_int 0)); cbn [exit].
  + split; auto.
  + split; [|intros [_ H]; discriminate].
    intros H. exfalso. revert H. apply emit_exit.
Qed.

(** X7: every record a run writes has type "object", width and height
    equal to the size, rotation 0.0 and stroke width 1; its stroke is
    darken_hex of its fill with factor 0.72; and the record at position j
    is placed at the start offset plus the j-th point of the chosen
    pattern. *)
Theorem record_fields (env : Env) (args : @Args F) (j : nat) (o : Obj) :
  nth_error (output (main env args)) j = Some o ->
  type_ o = "object"%string
  /\ width o = size args /\ height o = size args
  /\ rotation o = of_int 0
  /\ strokeWidth (props o) = 1
  /\ darken_hex (fill (props o)) lit_0_72 = Some (stroke (props o))
  /\ exists p, gen_nth (pattern_points args) j = Some p
               /\ obj_x o = fadd (start_x args) (fst p)
               /\ obj_y o = fadd (start_y args) (snd p).
Proof.
intros H. apply main_output_emitted in H.
destruct H as [index [p [border [_ [Hp [Hd ->]]]]]].
cbn [record_of type_ width height rotation props strokeWidth fill stroke
     obj_x obj_y iter gen pos Nat.add] in *.
repeat split; try assumption. exists p. auto.
Qed.

(** X8: the fill of every record is "#" followed by six lower-case
    hexadecimal digits (0-9, a-f): a well-formed colour of 7 characters
    whose three channels are bytes. *)
Theorem fill_is_well_formed (env : Env) (args : @Args F) (j : nat) (o : Obj) :
  nth_error (output (main env args)) j = Some o ->
  lower_case_colour (fill (props o)) = true
  /\ well_formed_colour (fill (props o)) = true
  /\ String.length (fill (props o)) = 7%nat
  /\ exists r g b, channels (fill (props o)) = Some (r, g, b)
                   /\ is_byte r /\ is_byte g /\ is_byte b.
Proof.
intros H. apply main_output_emitted in H.
destruct H as [index [p [border [_ [_ [_ ->]]]]]].
cbn [record_of props fill]. unfold fill_at.
destruct (random_hex_color_formatted (rng_after (initial_rng env args) j))
  as [r [g [b [Hr [Hg [Hb ->]]]]]].
destruct (channels_formatted r g b Hr Hg Hb) as [C W]. cbn zeta in C, W.
split; [exact (write_colour_lower_case r g b Hr Hg Hb)|].
split; [exact W|]. split; [|exists r, g, b; auto].
destruct (format_02x_byte r Hr) as [r1 [r2 [-> _]]].
destruct (format_02x_byte g Hg) as [g1 [g2 [-> _]]].
destruct (format_02x_byte b Hb) as [b1 [b2 [-> _]]].
reflexivity.
Qed.

(** X9: the geometry of a run does not depend on the seed or on the
    entropy of the machine: two runs that differ in them only and emit
    equally many records place their records at the same positions. *)
Theorem positions_ignore_seed (env1 env2 : Env) (args : @Args F)
  (s1 s2 : option Z) :
  List.length (output (main env1 (with_seed args s1)))
  = List.length (output (main env2 (with_seed args s2))) ->
  map position (output (main env1 (with_seed args s1)))
  = map position (output (main env2 (with_seed args s2))).
Proof.
intros Hlen. apply map_by_nth_error.
- now rewrite length_map.
- intros j o1 H1. rewrite nth_error_map.
  destruct (nth_error (output (main env2 (with_seed args s2))) j)
    as [o2|] eqn:H2.
  2:{ apply nth_error_None in H2.
      assert (j < List.length (output (main env1 (with_seed args s1))))%nat
        by (apply nth_error_Some; congruence). lia. }
  apply main_output_emitted in H1, H2.
  destruct H1 as [i1 [p1 [b1 [_ [P1 [_ ->]]]]]].
  destruct H2 as [i2 [p2 [b2 [_ [P2 [_ ->]]]]]].
  change (pattern_points (with_seed args s2))
    with (pattern_points (with_seed args s1)) in P2.
  rewrite P1 in P2. inversion P2; subst p2. reflexivity.
Qed.

(** X10: a larger count only appends records: on an output that takes
    every record, the run with count n writes the first n records of the
    run with count m >= n and otherwise equal arguments. *)
Theorem count_extends_run {TB : TruncatesBytes F} (env : Env) (args : @Args F)
  (n m : Z) :
  fle (size args) (of_int 0) = false ->
  0 < n <= m ->
  (forall i, (i < Z.to_nat m)%nat -> sink env i = Written) ->
  output (main env (with_count args n))
  = firstn (Z.to_nat n) (output (main env (with_count args m))).
Proof.
intros Hs Hnm Hw.
destruct (main_complete env (with_count args n) ltac:(cbn; lia) Hs
            ltac:(intros i Hi; apply Hw; cbn in Hi; lia)) as [Ln _].
destruct (main_complete env (with_count args m) ltac:(cbn; lia) Hs Hw)
  as [Lm _].
cbn [with_count count] in Ln, Lm.
rewrite <- Ln. apply prefix_by_nth_error.
intros j o Ho.
assert (Hj : (j < Z.to_nat n)%nat).
{ rewrite <- Ln. apply nth_error_Some. congruence. }
destruct (nth_error (output (main env (with_count args m))) j) as [o'|] eqn:E.
2:{ apply nth_error_None in E. lia. }
f_equal. apply main_output_emitted in Ho, E.
destruct Ho as [i1 [p1 [b1 [A1 [P1 [D1 ->]]]]]].
destruct E as [i2 [p2 [b2 [A2 [P2 [D2 ->]]]]]].
cbn [with_count count] in A1, A2.
rewrite nth_error_range in A1, A2 by lia.
change (pattern_points (with_count args m))
  with (pattern_points (with_count args n)) in P2.
change (initial_rng env (with_count args m))
  with (initial_rng env (with_count args n)) in *.
unfold record_of. cbn [with_count size start_x start_y].
rewrite P1 in P2. rewrite D1 in D2.
inversion A1; inversion A2; inversion P2; inversion D2; subst. reflexivity.
Qed.

(** X11: the square, ring and spiral patterns start at the centre: the
    first record of a run of them is placed at (start_x + 0.0,
    start_y + 0.0). *)
Theorem centred_patterns_start_at_offset (env : Env) (args : @Args F)
  (o : Obj) :
  pattern args <> Snake ->
  nth_error (output (main env args)) 0 = Some o ->
  position o = (fadd (start_x args) (of_int 0), fadd (start_y args) (of_int 0)).
Proof.
intros Hp H. apply main_output_emitted in H.
destruct H as [index [p [border [_ [P [_ ->]]]]]].
cbn [iter gen pos Nat.add] in P. unfold pattern_points in P.
destruct (pattern args); [contradiction|..];
  cbv in P; inversion P; reflexivity.
Qed.

End RecordFacts.

Lemma record_fields_witness :
  exists o,
    nth_error (output (main (LF := libm_absent) env0 (args_b64 3 10%float))) 1
    = Some o
    /\ width o = 10%float
    /\ darken_hex (F := float) (fill (props o)) lit_0_72
       = Some (stroke (props o)).
Proof.
eexists. split; [vm_compute; reflexivity|].
match goal with
| |- width ?o = _ /\ _ =>
    destruct (record_fields (LF := libm_absent) env0 (args_b64 3 10%float) 1 o)
      as [_ [Hw [_ [_ [_ [Hd _]]]]]]; [vm_compute; reflexivity|]
end.
split; [exact Hw | exact Hd].
Defined.

Lemma fill_is_well_formed_witness :
  exists o,
    nth_error (output (main (LF := libm_absent) env0 (args_b64 3 10%float))) 0
    = Some o
    /\ lower_case_colour (fill (props o)) = true.
Proof.
eexists. split; [vm_compute; reflexivity|].
refine (proj1 (fill_is_well_formed (LF := libm_absent) env0
                 (args_b64 3 10%float) 0 _ _)).
vm_compute. reflexivity.
Defined.

Lemma positions_ignore_seed_witness :
  map position
      (output (main (LF := libm_absent) env0
                    (with_seed (args_b64 3 10%float) (Some 1))))
  = map position
        (output (main (LF := libm_absent) (closing_after 9 PipeClosed)
                      (with_seed (args_b64 3 10%float) None))).
Proof.
apply (positions_ignore_seed (LF := libm_absent) env0
         (closing_after 9 PipeClosed) (args_b64 3 10%float) (Some 1) None).
reflexivity.
Defined.

Lemma count_extends_run_witness :
  output (main (LF := libm_absent) env0 (with_count (args_b64 0 10%float) 2))
  = firstn (Z.to_nat 2)
      (output (main (LF := libm_absent) env0
                    (with_count (args_b64 0 10%float) 5))).
Proof.
apply (count_extends_run (LF := libm_absent) env0 (args_b64 0 10%float) 2 5).
- reflexivity.
- lia.
- intros i _. reflexivity.
Defined.

Lemma centred_patterns_start_at_offset_witness :
  exists o,
    nth_error
      (output (main (LF := libm_absent) env0
                    {| count := 2; size := 10%float; start_x := 3%float;
                       start_y := 4%float; pattern := Spiral; columns := 40;
                       row_gap := 10%float; seed := Some 1 |})) 0
    = Some o
    /\ position o = (3, 4)%float.
Proof.
eexists. split; [vm_compute; reflexivity|].
refine (centred_patterns_start_at_offset (LF := libm_absent) env0
          {| count := 2; size := 10%float; start_x := 3%float;
             start_y := 4%float; pattern := Spiral; columns := 40;
             row_gap := 10%float; seed := Some 1 |} _ _ _).
- discriminate.
- vm_compute. reflexivity.
Defined.

(* ================================================================== *)
(** * Further properties: colours *)

Local Open Scope string_scope.

Lemma all_bytes_darken_strictly :
  forallb byte_darkens_strictly (range 0 256) = true.
Proof. vm_compute. reflexivity. Qed.

Lemma all_bytes_fade_out : forallb byte_fades_out (range 0 256) = true.
Proof. vm_compute. reflexivity. Qed.

Lemma all_slices_reject :
  forallb (byte_rejects PrimFloat.nan) (range (-15) 256) = true
  /\ forallb (byte_rejects PrimFloat.infinity) (range (-15) 256) = true
  /\ forallb (byte_rejects PrimFloat.neg_infinity) (range (-15) 256) = true.
Proof. repeat split; vm_compute; reflexivity. Qed.

Lemma all_bytes_saturate : forallb byte_saturates (range 0 256) = true.
Proof. vm_compute. reflexivity. Qed.

Lemma clamped_is_byte v : is_byte (Z.max 0 (Z.min 255 v)).
Proof. unfold is_byte. lia. Qed.

Lemma length_formatted r g b :
  is_byte r -> is_byte g -> is_byte b ->
  String.length ("#" ++ format_02x r ++ format_02x g ++ format_02x b) = 7%nat.
Proof.
intros Hr Hg Hb.
destruct (format_02x_byte r Hr) as [r1 [r2 [-> _]]].
destruct (format_02x_byte g Hg) as [g1 [g2 [-> _]]].
destruct (format_02x_byte b Hb) as [b1 [b2 [-> _]]].
reflexivity.
Qed.

Lemma in_all_ascii c : In c all_ascii.
Proof.
unfold all_ascii. apply in_map_iff. exists (nat_of_ascii c).
split; [apply ascii_nat_embedding|].
apply in_seq. pose proof (nat_ascii_bounded c). lia.
Qed.

Lemma forallb_all_ascii (f : ascii -> bool) :
  forallb f all_ascii = true -> forall c, f c = true.
Proof. intros H c. rewrite forallb_forall in H. apply H, in_all_ascii. Qed.

Lemma all_slices_of_one : forallb slice_of_one all_ascii = true.
Proof. vm_compute. reflexivity. Qed.

Lemma all_slices_of_two : forallb slices_from all_ascii = true.
Proof. vm_compute. reflexivity. Qed.

Lemma slices_from_bounded c1 c2 :
  slices_from c1 = true -> slice_bounded (String c1 (String c2 "")) = true.
Proof.
unfold slices_from. intros H.
exact (forallb_all_ascii
         (fun c2 => slice_bounded (String c1 (String c2 ""))) H c2).
Qed.

(** What [int(s, 16)] reads from two characters at most lies in
    [-15..255]: ["-f"] is the least and ["ff"] the greatest. *)
Lemma int16_short s v :
  int16 s = Some v -> (String.length s <= 2)%nat -> slice_value v.
Proof.
intros H Hl.
assert (Hb : slice_bounded s = true).
{ destruct s as [|c1 [|c2 [|c3 s]]]; cbn [String.length] in Hl; try lia.
  - reflexivity.
  - exact (forallb_all_ascii slice_of_one all_slices_of_one c1).
  - apply slices_from_bounded.
    exact (forallb_all_ascii slices_from all_slices_of_two c1). }
unfold slice_bounded in Hb. rewrite H in Hb.
apply andb_true_iff in Hb. unfold slice_value. lia.
Qed.

Lemma length_substring_le n m s : (String.length (substring n m s) <= m)%nat.
Proof.
revert n m. induction s as [|c s IH]; intros [|n] [|m]; cbn; try lia.
- specialize (IH 0%nat m). lia.
- apply (IH n 0%nat).
- apply (IH n (Datatypes.S m)).
Qed.

(** Whatever colour [darken_hex] reads, its channels lie in [-15..255]. *)
Lemma channels_are_slices color r g b :
  channels color = Some (r, g, b) ->
  slice_value r /\ slice_value g /\ slice_value b.
Proof.
unfold channels. cbn zeta.
destruct (int16 (substring 0 2 (lstrip_hash color))) as [r'|] eqn:Er;
  [|discriminate].
destruct (int16 (substring 2 2 (lstrip_hash color))) as [g'|] eqn:Eg;
  [|discriminate].
destruct (int16 (substring 4 2 (lstrip_hash color))) as [b'|] eqn:Eb;
  [|discriminate].
intros H. inversion H; subst.
repeat split; eapply int16_short; try eassumption; apply length_substring_le.
Qed.

Section DarkenAnyArithmetic.
Context {F : Type} {AF : Arith F}.

(** X12: whenever [darken_hex] returns, for every colour and every
    factor, the result is "#" followed by six lower-case hexadecimal
    digits, 7 characters, with every channel clamped into 0..255. *)
Theorem darken_hex_result (color : string) (factor : F) (out : string) :
  darken_hex color factor = Some out ->
  lower_case_colour out = true
  /\ well_formed_colour out = true
  /\ String.length out = 7%nat
  /\ exists r g b, channels out = Some (r, g, b)
                   /\ is_byte r /\ is_byte g /\ is_byte b.
Proof.
unfold darken_hex.
destruct (channels color) as [[[r g] b]|]; [|discriminate].
unfold darken_channel.
destruct (ftrunc (fmul (of_int r) factor)) as [r'|]; [|discriminate].
destruct (ftrunc (fmul (of_int g) factor)) as [g'|]; [|discriminate].
destruct (ftrunc (fmul (of_int b) factor)) as [b'|]; [|discriminate].
intros H. inversion H; subst out.
pose proof (clamped_is_byte r') as Hr.
pose proof (clamped_is_byte g') as Hg.
pose proof (clamped_is_byte b') as Hb.
destruct (channels_formatted _ _ _ Hr Hg Hb) as [C W]. cbn zeta in C, W.
split; [now apply write_colour_lower_case|].
split; [exact W|]. split; [now apply length_formatted|].
eexists _, _, _. split; [exact C|]. auto.
Qed.

(** X13: a colour with at most four characters after its leading [#]
    signs has no third channel to read: [darken_hex] raises, whatever the
    factor. *)
Theorem darken_hex_short_colour (color : string) (factor : F) :
  (String.length (lstrip_hash color) <= 4)%nat ->
  darken_hex color factor = None.
Proof.
intros H. unfold darken_hex, channels. cbn zeta.
destruct (lstrip_hash color) as [|c1 [|c2 [|c3 [|c4 [|c5 s]]]]];
  cbn [String.length] in H; try lia;
  cbn [substring]; change (int16 "") with (@None Z);
  repeat match goal with
         | |- context [int16 ?s] => destruct (int16 s)
         end; reflexivity.
Qed.

Lemma lstrip_hash_app pre s :
  lstrip_hash pre = "" -> lstrip_hash (pre ++ s) = lstrip_hash s.
Proof.
induction pre as [|c pre IH]; intros H; [reflexivity|].
cbn [append lstrip_hash] in *.
destruct (Ascii.eqb c "#"); [now apply IH | discriminate].
Qed.

Lemma length_lstrip_hash t :
  (String.length (lstrip_hash t) <= String.length t)%nat.
Proof.
induction t as [|c t IH]; cbn [lstrip_hash String.length]; [lia|].
destruct (Ascii.eqb c "#"); cbn [String.length]; lia.
Qed.

Lemma lstrip_hash_head c t :
  lstrip_hash (String c t) = String c t -> Ascii.eqb c "#" = false.
Proof.
cbn [lstrip_hash]. destruct (Ascii.eqb c "#"); [|reflexivity].
intros H. apply (f_equal String.length) in H.
pose proof (length_lstrip_hash t). cbn [String.length] in H. lia.
Qed.

(** X14: [darken_hex] reads six characters and no more: any number of
    leading [#] signs before them and any text after them change nothing. *)
Theorem darken_hex_reads_six (hashes six rest : string) (factor : F) :
  lstrip_hash hashes = "" ->
  String.length six = 6%nat -> lstrip_hash six = six ->
  darken_hex (hashes ++ six ++ rest) factor = darken_hex six factor.
Proof.
intros Hh Hl Hs. unfold darken_hex, channels. cbn zeta.
rewrite lstrip_hash_app by assumption. rewrite Hs.
destruct six as [|c1 [|c2 [|c3 [|c4 [|c5 [|c6 [|c7 s]]]]]]]; try discriminate.
apply lstrip_hash_head in Hs.
cbn [append lstrip_hash]. rewrite Hs.
cbn [substring append]. destruct rest; reflexivity.
Qed.

End DarkenAnyArithmetic.

Lemma darken_hex_result_witness :
  darken_hex (F := float) "-a+b c" 2%float = Some "#001618"
  /\ lower_case_colour "#001618" = true
  /\ String.length "#001618" = 7%nat.
Proof.
split; [reflexivity|].
destruct (darken_hex_result (F := float) "-a+b c" 2%float "#001618")
  as [H1 [_ [H2 _]]]; [reflexivity|].
split; [exact H1 | exact H2].
Defined.

Lemma darken_hex_short_colour_witness :
  (String.length (lstrip_hash "#abcd") <= 4)%nat
  /\ darken_hex (F := float) "#abcd" lit_0_72 = None.
Proof.
split; [cbn; lia|].
apply (darken_hex_short_colour (F := float) "#abcd" lit_0_72). cbn. lia.
Defined.

Lemma darken_hex_reads_six_witness :
  darken_hex (F := float) ("##" ++ "8989a5" ++ "ff; junk") lit_0_72
  = darken_hex (F := float) "8989a5" lit_0_72.
Proof.
apply (darken_hex_reads_six (F := float) "##" "8989a5" "ff; junk" lit_0_72);
  reflexivity.
Defined.

Lemma byte_check (f : Z -> bool) v :
  forallb f (range 0 256) = true -> is_byte v -> f v = true.
Proof.
intros H Hv. rewrite forallb_forall in H. apply H. now apply byte_in_range.
Qed.

Lemma slice_check (f : Z -> bool) v :
  forallb f (range (-15) 256) = true -> slice_value v -> f v = true.
Proof.
intros H Hv. rewrite forallb_forall in H. apply H. apply in_range.
unfold slice_value in Hv. lia.
Qed.

Lemma truncated_strictly v :
  is_byte v -> truncated_0_72 v < v \/ (v = 0 /\ truncated_0_72 v = 0).
Proof.
intros Hv. pose proof (byte_check _ v all_bytes_darken_strictly Hv) as H.
unfold byte_darkens_strictly in H. apply orb_true_iff in H.
destruct H as [H|H]; [left; now apply Z.ltb_lt | right].
apply Z.eqb_eq in H. subst v. split; reflexivity.
Qed.

(** X15: on binary64, darkening with 0.72 lowers every channel that is
    not 0 and keeps a 0 at 0, so black is the only colour whose channels it
    leaves as they are. *)
Theorem darken_lowers_every_channel (color : string) :
  well_formed_colour color = true ->
  exists r g b out r' g' b',
    channels color = Some (r, g, b)
    /\ darken_hex (F := float) color lit_0_72 = Some out
    /\ channels out = Some (r', g', b')
    /\ (r' < r \/ (r = 0 /\ r' = 0))
    /\ (g' < g \/ (g = 0 /\ g' = 0))
    /\ (b' < b \/ (b = 0 /\ b' = 0)).
Proof.
intros Hwf.
destruct (darken_hex_once color Hwf) as [[[r g] b] [out [E [D [_ [C _]]]]]].
destruct (channels_well_formed color Hwf) as [r0 [g0 [b0 [E0 [Hr [Hg Hb]]]]]].
rewrite E in E0. inversion E0; subst r0 g0 b0.
exists r, g, b, out. eexists _, _, _.
split; [exact E|]. split; [exact D|]. split; [exact C|].
repeat split; now apply truncated_strictly.
Qed.

Lemma darken_hex_value color r g b :
  channels color = Some (r, g, b) ->
  is_byte r -> is_byte g -> is_byte b ->
  darken_hex (F := float) color lit_0_72 = Some (write_colour (darkened (r, g, b)))
  /\ well_formed_colour (write_colour (darkened (r, g, b))) = true
  /\ channels (write_colour (darkened (r, g, b))) = Some (darkened (r, g, b)).
Proof.
intros E Hr Hg Hb.
destruct (darken_channel_byte r Hr) as [Dr [Br _]].
destruct (darken_channel_byte g Hg) as [Dg [Bg _]].
destruct (darken_channel_byte b Hb) as [Db [Bb _]].
unfold darken_hex. rewrite E, Dr, Dg, Db.
destruct (channels_formatted _ _ _ Br Bg Bb) as [C W]. cbn zeta in C, W.
cbn [write_colour darkened]. auto.
Qed.

Lemma darken_times_succ n : forall color r g b,
  channels color = Some (r, g, b) ->
  is_byte r -> is_byte g -> is_byte b ->
  darken_times (Datatypes.S n) color
  = Some (write_colour (Nat.iter (Datatypes.S n) darkened (r, g, b))).
Proof.
induction n as [|n IH]; intros color r g b E Hr Hg Hb;
  destruct (darken_hex_value color r g b E Hr Hg Hb) as [D [_ C]].
- cbn [darken_times]. rewrite D. reflexivity.
- change (darken_times (Datatypes.S (Datatypes.S n)) color)
    with (match darken_hex (F := float) color lit_0_72 with
          | Some c => darken_times (Datatypes.S n) c
          | None => None
          end).
  rewrite D.
  destruct (darken_channel_byte r Hr) as [_ [Br _]].
  destruct (darken_channel_byte g Hg) as [_ [Bg _]].
  destruct (darken_channel_byte b Hb) as [_ [Bb _]].
  rewrite (IH (write_colour (darkened (r, g, b)))
              (truncated_0_72 r) (truncated_0_72 g) (truncated_0_72 b)
              C Br Bg Bb).
  f_equal. f_equal.
  change (truncated_0_72 r, truncated_0_72 g, truncated_0_72 b)
    with (darkened (r, g, b)).
  rewrite <- Nat.iter_succ_r. reflexivity.
Qed.

Lemma iter_darkened n r g b :
  Nat.iter n darkened (r, g, b)
  = (Nat.iter n truncated_0_72 r, Nat.iter n truncated_0_72 g,
     Nat.iter n truncated_0_72 b).
Proof.
induction n as [|n IH]; [reflexivity|].
rewrite !Nat.iter_succ, IH. reflexivity.
Qed.

(** X16: on binary64, fifteen applications of darken with 0.72 turn
    every well-formed colour into black, "#000000". *)
Theorem darken_fades_to_black (color : string) :
  well_formed_colour color = true ->
  darken_times 15 color = Some "#000000".
Proof.
intros Hwf.
destruct (channels_well_formed color Hwf) as [r [g [b [E [Hr [Hg Hb]]]]]].
rewrite (darken_times_succ 14 color r g b E Hr Hg Hb), iter_darkened.
pose proof (byte_check _ r all_bytes_fade_out Hr) as Fr.
pose proof (byte_check _ g all_bytes_fade_out Hg) as Fg.
pose proof (byte_check _ b all_bytes_fade_out Hb) as Fb.
unfold byte_fades_out in Fr, Fg, Fb. apply Z.eqb_eq in Fr, Fg, Fb.
rewrite Fr, Fg, Fb. reflexivity.
Qed.

(** X17: on binary64, a factor that is NaN or infinite makes [int] raise
    on the first channel, whatever [int(s, 16)] has read for it (-15 to
    255): [darken_hex] returns for no colour at all. *)
Theorem darken_hex_rejects_nonfinite_factor (color : string) :
  darken_hex (F := float) color PrimFloat.nan = None
  /\ darken_hex (F := float) color PrimFloat.infinity = None
  /\ darken_hex (F := float) color PrimFloat.neg_infinity = None.
Proof.
unfold darken_hex.
destruct (channels color) as [[[r g] b]|] eqn:E; [|auto].
destruct (channels_are_slices color r g b E) as [Hr _].
destruct all_slices_reject as [Hn [Hi Hm]].
pose proof (slice_check _ r Hn Hr) as H1.
pose proof (slice_check _ r Hi Hr) as H2.
pose proof (slice_check _ r Hm Hr) as H3.
unfold byte_rejects in H1, H2, H3.
destruct (darken_channel (F := float) r PrimFloat.nan); [discriminate|].
destruct (darken_channel (F := float) r PrimFloat.infinity); [discriminate|].
destruct (darken_channel (F := float) r PrimFloat.neg_infinity); [discriminate|].
auto.
Qed.

(** X18: on binary64 the clamp works on both sides: factor 2.0 doubles
    every channel and saturates it at 255, factor -1.0 gives black. *)
Theorem darken_hex_clamps (color : string) :
  well_formed_colour color = true ->
  exists r g b doubled,
    channels color = Some (r, g, b)
    /\ darken_hex (F := float) color 2%float = Some doubled
    /\ channels doubled
       = Some (Z.min 255 (2 * r), Z.min 255 (2 * g), Z.min 255 (2 * b))
    /\ darken_hex (F := float) color (-1)%float = Some "#000000".
Proof.
intros Hwf.
destruct (channels_well_formed color Hwf) as [r [g [b [E [Hr [Hg Hb]]]]]].
exists r, g, b. unfold darken_hex. rewrite E.
assert (Hs : forall v, is_byte v ->
          darken_channel (F := float) v 2%float = Some (Z.min 255 (2 * v))
          /\ darken_channel (F := float) v (-1)%float = Some 0
          /\ is_byte (Z.min 255 (2 * v))).
{ intros v Hv. pose proof (byte_check _ v all_bytes_saturate Hv) as H.
  unfold byte_saturates in H.
  destruct (darken_channel (F := float) v 2%float) as [a|]; [|discriminate].
  destruct (darken_channel (F := float) v (-1)%float) as [c|]; [|discriminate].
  apply andb_true_iff in H. destruct H as [H1 H2].
  apply Z.eqb_eq in H1, H2. subst. unfold is_byte in *.
  repeat split; lia. }
destruct (Hs r Hr) as [-> [-> Br]]. destruct (Hs g Hg) as [-> [-> Bg]].
destruct (Hs b Hb) as [-> [-> Bb]].
eexists. split; [reflexivity|]. split; [reflexivity|].
destruct (channels_formatted _ _ _ Br Bg Bb) as [C _]. cbn zeta in C.
split; [exact C | reflexivity].
Qed.

Section RandomColour.
Context {RNG : PyRandom}.

(** X19: [random_hex_color] draws three bytes in the order red, green,
    blue, each from the generator the draw before left, returns the
    generator after the third draw, and writes a well-formed colour of 7
    characters that reads back as exactly these three bytes. *)
Theorem random_hex_color_channels (rng : Rng) :
  let (r, rng1) := randint 0 255 rng in
  let (g, rng2) := randint 0 255 rng1 in
  let (b, rng3) := randint 0 255 rng2 in
  snd (random_hex_color rng) = rng3
  /\ channels (fst (random_hex_color rng)) = Some (r, g, b)
  /\ well_formed_colour (fst (random_hex_color rng)) = true
  /\ String.length (fst (random_hex_color rng)) = 7%nat.
Proof.
unfold random_hex_color.
pose proof (randint_range 0 255 rng ltac:(lia)) as Hr.
destruct (randint 0 255 rng) as [r rng1].
pose proof (randint_range 0 255 rng1 ltac:(lia)) as Hg.
destruct (randint 0 255 rng1) as [g rng2].
pose proof (randint_range 0 255 rng2 ltac:(lia)) as Hb.
destruct (randint 0 255 rng2) as [b rng3].
cbn [fst snd] in *.
destruct (channels_formatted r g b Hr Hg Hb) as [C W]. cbn zeta in C, W.
repeat split; try assumption. now apply length_formatted.
Qed.

End RandomColour.

Lemma darken_lowers_every_channel_witness :
  well_formed_colour "#ff0001" = true
  /\ exists r g b out r' g' b',
    channels "#ff0001" = Some (r, g, b)
    /\ darken_hex (F := float) "#ff0001" lit_0_72 = Some out
    /\ channels out = Some (r', g', b')
    /\ (r' < r \/ (r = 0 /\ r' = 0))
    /\ (g' < g \/ (g = 0 /\ g' = 0))
    /\ (b' < b \/ (b = 0 /\ b' = 0)).
Proof.
split; [reflexivity|].
apply (darken_lowers_every_channel "#ff0001"). reflexivity.
Defined.

Lemma darken_fades_to_black_witness :
  well_formed_colour "ffffff" = true
  /\ darken_times 15 "ffffff" = Some "#000000"
  /\ darken_times 14 "ffffff" = Some "#010101".
Proof.
split; [reflexivity|]. split; [|reflexivity].
apply (darken_fades_to_black "ffffff"). reflexivity.
Defined.

Lemma darken_hex_clamps_witness :
  well_formed_colour "#ff8000" = true
  /\ exists r g b doubled,
    channels "#ff8000" = Some (r, g, b)
    /\ darken_hex (F := float) "#ff8000" 2%float = Some doubled
    /\ channels doubled
       = Some (Z.min 255 (2 * r), Z.min 255 (2 * g), Z.min 255 (2 * b))
    /\ darken_hex (F := float) "#ff8000" (-1)%float = Some "#000000".
Proof.
split; [reflexivity|]. apply (darken_hex_clamps "#ff8000"). reflexivity.
Defined.

Local Close Scope string_scope.

(* ================================================================== *)
(** * Further properties: the square rings cover the lattice *)

(** The lattice points of the centre and the first [k] rings. *)
Lemma in_square_lattice_upto k a b :
  In (a, b) (yields_upto (ring_generator (0, 0) square_lattice) k) ->
  Z.max (Z.abs a) (Z.abs b) <= Z.of_nat k.
Proof.
induction k as [|k IH]; unfold yields_upto in *.
- cbn [start ring_generator unroll app In]. intros [E|[]].
  inversion E. subst. lia.
- rewrite unroll_succ, app_assoc, in_app_iff, ring_locals_after.
  cbn [body entry ring_generator fst].
  intros [H|H]; [specialize (IH H); lia|].
  apply in_square_lattice in H. lia.
Qed.

Lemma NoDup_square_lattice_upto k :
  NoDup (yields_upto (ring_generator (0, 0) square_lattice) k).
Proof.
induction k as [|k IH].
- cbn. constructor; [intros []|constructor].
- unfold yields_upto in *.
  rewrite unroll_succ, app_assoc, ring_locals_after.
  cbn [body entry ring_generator fst].
  apply NoDup_app; [exact IH | apply NoDup_square_lattice; lia|].
  intros [a b] H1 H2. apply in_square_lattice_upto in H1.
  apply in_square_lattice in H2. lia.
Qed.

Lemma NoDup_map_inj_on {A B} (f : A -> B) (l : list A) :
  (forall x y, In x l -> In y l -> f x = f y -> x = y) ->
  NoDup l -> NoDup (map f l).
Proof.
intros Hf Hnd. induction Hnd as [|x l Hx Hnd IH]; cbn [map]; constructor.
- intros Hin. apply in_map_iff in Hin. destruct Hin as [y [E Hy]].
  apply Hf in E; [subst; contradiction | now right | now left].
- apply IH. intros a b Ha Hb. apply Hf; now right.
Qed.

(** Where the first [k] iterations yield no value twice, [next] returns
    different values at different positions among them. *)
Lemma NoDup_prefix_distinct {A} (g : Generator A) Inv k i j :
  productive g Inv -> NoDup (yields_upto g k) ->
  (i < List.length (yields_upto g k))%nat ->
  (j < List.length (yields_upto g k))%nat ->
  i <> j -> gen_nth g i <> gen_nth g j.
Proof.
intros Hp Hnd Hi Hj Hij E.
destruct (nth_error (yields_upto g k) i) as [vi|] eqn:Ei;
  [|apply nth_error_None in Ei; lia].
destruct (nth_error (yields_upto g k) j) as [vj|] eqn:Ej;
  [|apply nth_error_None in Ej; lia].
rewrite (gen_nth_stable g Inv k i vi Hp Ei) in E.
rewrite (gen_nth_stable g Inv k j vj Hp Ej) in E.
apply Hij. apply (proj1 (NoDup_nth_error _) Hnd); [assumption|].
congruence.
Qed.

Section SquareCoversLattice.
Context {F : Type} {AF : Arith F}.
Variable step : F.

Lemma square_yields_lattice k :
  zero_product step ->
  (forall r, 1 <= r <= Z.of_nat k -> negation_agrees step r) ->
  yields_upto (square_ring_points step) k
  = map (scale step) (yields_upto (ring_generator (0, 0) square_lattice) k).
Proof.
intros Hz Hn. induction k as [|k IH].
- unfold zero_product in Hz.
  cbn [yields_upto start square_ring_points ring_generator unroll app map].
  unfold scale. cbn [fst snd]. now rewrite Hz.
- change (square_ring_points step)
    with (ring_generator (of_int 0, of_int 0) (square_ring_body step)) in *.
  unfold yields_upto in *.
  rewrite !unroll_succ, !app_assoc, map_app.
  rewrite IH by (intros r Hr; apply Hn; lia). f_equal.
  rewrite !ring_locals_after. cbn [body entry ring_generator fst].
  apply square_ring_body_lattice. apply Hn. lia.
Qed.

Lemma length_square_yields k :
  List.length (yields_upto (square_ring_points step) k)
  = Z.to_nat (1 + 4 * Z.of_nat k * (Z.of_nat k + 1)).
Proof.
unfold yields_upto. rewrite length_app.
assert (L := length_ring_unroll (of_int 0, of_int 0) (square_ring_body step)
               (fun ring Hr => length_square_ring_body step ring Hr) k).
match type of L with
| ?l = _ =>
    change (List.length (start (square_ring_points step)) + l
            = Z.to_nat (1 + 4 * Z.of_nat k * (Z.of_nat k + 1)))%nat
end.
rewrite L. cbn [start square_ring_points List.length]. lia.
Qed.

(** X20: the centre and the first k rings of the square pattern, the
    first 1 + 4k(k+1) points, are pairwise different whenever the float
    products i * step of the integers i of -k..k are pairwise different,
    0 * step is 0.0 and (-r) * step is -(r * step) for the rings r of
    1..k. *)
Theorem square_never_repeats (k i j : nat) :
  zero_product step ->
  (forall r, 1 <= r <= Z.of_nat k -> negation_agrees step r) ->
  distinct_products step (Z.of_nat k) ->
  (i < Z.to_nat (1 + 4 * Z.of_nat k * (Z.of_nat k + 1)))%nat ->
  (j < Z.to_nat (1 + 4 * Z.of_nat k * (Z.of_nat k + 1)))%nat ->
  i <> j ->
  gen_nth (square_ring_points step) i <> gen_nth (square_ring_points step) j.
Proof.
intros Hz Hn Hd Hi Hj.
rewrite <- (length_square_yields k) in Hi, Hj.
apply (NoDup_prefix_distinct _ _ k i j (square_productive step));
  try assumption.
rewrite square_yields_lattice by assumption.
apply NoDup_map_inj_on; [|apply NoDup_square_lattice_upto].
intros [a b] [c d] H1 H2. apply in_square_lattice_upto in H1, H2.
apply (scale_injective_on step (Z.of_nat k)); try assumption;
  cbn [fst snd]; lia.
Qed.

(** X21: the square pattern reaches every point of the lattice: for
    integers a and b, not both 0, the point (a * step, b * step) is yielded
    in ring r = max(|a|, |b|), at one of the 8r positions after the first
    1 + 4r(r-1), provided (-r) * step is -(r * step) in floating point. *)
Theorem square_reaches_every_lattice_point (a b r : Z) :
  r = Z.max (Z.abs a) (Z.abs b) ->
  1 <= r ->
  negation_agrees step r ->
  exists j,
    (j < Z.to_nat (8 * r))%nat
    /\ gen_nth (square_ring_points step)
               (1 + Z.to_nat (4 * r * (r - 1)) + j)
       = Some (scale step (a, b)).
Proof.
intros Er Hr Hn.
assert (Hin : In (a, b) (square_lattice r)) by (apply in_square_lattice; lia).
apply In_nth_error in Hin. destruct Hin as [j Hj].
assert (Hlt : (j < Z.to_nat (8 * r))%nat).
{ rewrite <- length_square_lattice by assumption.
  apply nth_error_Some. congruence. }
exists j. split; [exact Hlt|].
rewrite square_ring_position by assumption.
rewrite square_ring_body_lattice, nth_error_map, Hj by assumption.
reflexivity.
Qed.

End SquareCoversLattice.

Section RingCounts.
Context {F : Type} {AF : Arith F} {LF : Libm F}.

(** X22: in every arithmetic, the centre and the first k rings of the
    square pattern, and of the circular pattern, are 1 + 4k(k+1) points. *)
Theorem points_in_rings (step : F) (k : nat) :
  List.length (yields_upto (square_ring_points step) k)
  = Z.to_nat (1 + 4 * Z.of_nat k * (Z.of_nat k + 1))
  /\ List.length (yields_upto (circle_ring_points step) k)
     = Z.to_nat (1 + 4 * Z.of_nat k * (Z.of_nat k + 1)).
Proof.
split; unfold yields_upto; rewrite length_app.
- assert (L := length_ring_unroll (of_int 0, of_int 0) (square_ring_body step)
                 (fun ring Hr => length_square_ring_body step ring Hr) k).
  match type of L with
  | ?l = _ =>
      change (List.length (start (square_ring_points step)) + l
              = Z.to_nat (1 + 4 * Z.of_nat k * (Z.of_nat k + 1)))%nat
  end.
  rewrite L. cbn [start square_ring_points List.length]. lia.
- assert (Hc : forall ring, 1 <= ring ->
            List.length (circle_ring_body step ring) = Z.to_nat (8 * ring)).
  { intros ring Hr. rewrite length_circle_ring_body. f_equal. lia. }
  assert (L := length_ring_unroll (of_int 0, of_int 0) (circle_ring_body step)
                 Hc k).
  match type of L with
  | ?l = _ =>
      change (List.length (start (circle_ring_points step)) + l
              = Z.to_nat (1 + 4 * Z.of_nat k * (Z.of_nat k + 1)))%nat
  end.
  rewrite L. cbn [start circle_ring_points List.length]. lia.
Qed.

End RingCounts.

(* ================================================================== *)
(** * Further properties: the spiral covers the lattice *)

Lemma range_shift a b : range (a + 1) (b + 1) = map Z.succ (range a b).
Proof.
unfold range. rewrite map_map.
replace (b + 1 - (a + 1)) with (b - a) by lia.
apply map_ext. intros i. lia.
Qed.

(** A leg of the walk: [n + 1] steps with heading [h] from (x, y), and
    the turn at its end. *)
Lemma walk_leg h l n : forall x y,
  let w := {| at_x := x; at_y := y; heading := h;
              togo := Datatypes.S n; leg_length := l |} in
  walk_list w (Datatypes.S n)
  = map (fun i => (x + i * fst (delta h), y + i * snd (delta h)))
        (range 1 (Z.of_nat (Datatypes.S n) + 1))
  /\ Nat.iter (Datatypes.S n) walk_step w
     = {| at_x := x + Z.of_nat (Datatypes.S n) * fst (delta h);
          at_y := y + Z.of_nat (Datatypes.S n) * snd (delta h);
          heading := turn h;
          togo := next_length h l; leg_length := next_length h l |}.
Proof.
induction n as [|n IH]; intros x y w.
- subst w. split.
  + cbn [walk_list walk_step at_x at_y heading togo leg_length].
    rewrite range_cons, range_nil by lia. cbn [map]. repeat f_equal; lia.
  + cbn [Nat.iter nat_rect walk_step at_x at_y heading togo leg_length].
    f_equal; lia.
- specialize (IH (x + fst (delta h)) (y + snd (delta h))).
  cbn zeta in IH. destruct IH as [IH1 IH2].
  assert (Hw : walk_step w =
    {| at_x := x + fst (delta h); at_y := y + snd (delta h); heading := h;
       togo := Datatypes.S n; leg_length := l |}) by reflexivity.
  split.
  + change (walk_list w (Datatypes.S (Datatypes.S n)))
      with ((at_x (walk_step w), at_y (walk_step w))
            :: walk_list (walk_step w) (Datatypes.S n)).
    rewrite Hw, IH1. cbn [at_x at_y].
    rewrite (range_cons 1 (Z.of_nat (Datatypes.S (Datatypes.S n)) + 1)) by lia.
    cbn [map]. f_equal; [f_equal; lia|].
    replace (Z.of_nat (Datatypes.S (Datatypes.S n)) + 1)
      with ((Z.of_nat (Datatypes.S n) + 1) + 1) by lia.
    rewrite range_shift, map_map. apply map_ext. intros i. f_equal; lia.
  + change (Nat.iter (Datatypes.S (Datatypes.S n)) walk_step w)
      with (walk_step (Nat.iter (Datatypes.S n) walk_step w)).
    rewrite <- iter_walk_step, Hw, IH2. f_equal; lia.
Qed.

(** Iteration [m] of the loop on the lattice. *)
Lemma walk_iteration m :
  0 <= m ->
  walk_list (at_loop_head (- m) (- m) (2 * m + 1)) (Z.to_nat (8 * m + 6))
  = spiral_lattice m
  /\ Nat.iter (Z.to_nat (8 * m + 6)) walk_step
              (at_loop_head (- m) (- m) (2 * m + 1))
     = at_loop_head (- (m + 1)) (- (m + 1)) (2 * (m + 1) + 1).
Proof.
intros Hm. unfold at_loop_head, spiral_lattice.
destruct (Z.to_nat (2 * m + 1)) as [|n] eqn:En; [lia|].
replace (Z.to_nat (2 * (m + 1) + 1))
  with (Datatypes.S (Datatypes.S (Datatypes.S n))) by lia.
replace (Z.to_nat (8 * m + 6)) with
  (Datatypes.S n + (Datatypes.S n
   + (Datatypes.S (Datatypes.S n) + Datatypes.S (Datatypes.S n))))%nat by lia.
assert (Hn : Z.of_nat (Datatypes.S n) = 2 * m + 1) by lia.
assert (Hn2 : Z.of_nat (Datatypes.S (Datatypes.S n)) = 2 * m + 2) by lia.
destruct (walk_leg Rightward (Datatypes.S n) n (- m) (- m)) as [A1 A2].
cbn [delta fst snd turn next_length] in A1, A2.
destruct (walk_leg Upward (Datatypes.S n) n
            (- m + Z.of_nat (Datatypes.S n) * 1)
            (- m + Z.of_nat (Datatypes.S n) * 0)) as [B1 B2].
cbn [delta fst snd turn next_length] in B1, B2.
destruct (walk_leg Leftward (Datatypes.S (Datatypes.S n)) (Datatypes.S n)
            (- m + Z.of_nat (Datatypes.S n) * 1 + Z.of_nat (Datatypes.S n) * 0)
            (- m + Z.of_nat (Datatypes.S n) * 0 + Z.of_nat (Datatypes.S n) * 1))
  as [C1 C2].
cbn [delta fst snd turn next_length] in C1, C2.
destruct (walk_leg Downward (Datatypes.S (Datatypes.S n)) (Datatypes.S n)
            (- m + Z.of_nat (Datatypes.S n) * 1 + Z.of_nat (Datatypes.S n) * 0
             + Z.of_nat (Datatypes.S (Datatypes.S n)) * -1)
            (- m + Z.of_nat (Datatypes.S n) * 0 + Z.of_nat (Datatypes.S n) * 1
             + Z.of_nat (Datatypes.S (Datatypes.S n)) * 0))
  as [D1 D2].
cbn [delta fst snd turn next_length] in D1, D2.
rewrite !walk_list_app, !iter_walk_add, A1, A2, B1, B2, C1, C2, D1, D2.
rewrite Hn, Hn2.
split; [|f_equal; lia].
apply f_equal2; [|apply f_equal2; [|apply f_equal2]];
  match goal with
  | |- map _ (range 1 ?a) = map _ (range 1 ?b) =>
      replace a with b by lia; apply map_ext; intros i; f_equal; lia
  end.
Qed.

Lemma spiral_rings_locals m k :
  locals_after (body spiral_rings) m k = m + Z.of_nat k.
Proof.
revert m. induction k as [|k IH]; intros m; cbn [locals_after]; [lia|].
cbn [body spiral_rings snd]. rewrite IH. lia.
Qed.

Lemma spiral_rings_succ k :
  yields_upto spiral_rings (Datatypes.S k)
  = yields_upto spiral_rings k ++ spiral_lattice (Z.of_nat k).
Proof.
unfold yields_upto. rewrite unroll_succ, app_assoc, spiral_rings_locals.
reflexivity.
Qed.

(** The first [k] iterations of the loop are the first [spiral_steps k]
    steps of the walk. *)
Lemma spiral_rings_walk k :
  yields_upto spiral_rings k = (0, 0) :: walk_list walker_start (spiral_steps k)
  /\ Nat.iter (spiral_steps k) walk_step walker_start
     = at_loop_head (- Z.of_nat k) (- Z.of_nat k) (2 * Z.of_nat k + 1).
Proof.
induction k as [|k [IH1 IH2]]; [split; reflexivity|].
destruct (walk_iteration (Z.of_nat k) ltac:(lia)) as [W1 W2].
assert (Hs : spiral_steps (Datatypes.S k)
             = (spiral_steps k + Z.to_nat (8 * Z.of_nat k + 6))%nat)
  by (unfold spiral_steps; nia).
rewrite spiral_rings_succ, Hs, IH1, walk_list_app, iter_walk_add, IH2, W1, W2.
split; [reflexivity|]. f_equal; lia.
Qed.

Lemma spiral_steps_ge k : (k <= spiral_steps k)%nat.
Proof. unfold spiral_steps. nia. Qed.

(** The walk is at [lattice_path n] after [n] steps. *)
Lemma nth_error_spiral_rings k n :
  (n <= spiral_steps k)%nat ->
  nth_error (yields_upto spiral_rings k) n = Some (lattice_path n).
Proof.
intros Hn. rewrite (proj1 (spiral_rings_walk k)).
destruct n as [|n]; [reflexivity|].
cbn [nth_error]. rewrite nth_error_walk_list by lia. reflexivity.
Qed.

Lemma in_spiral_lattice m a b :
  In (a, b) (spiral_lattice m) <->
  (b = - m /\ - m + 1 <= a <= m + 1) \/
  (a = m + 1 /\ - m + 1 <= b <= m + 1) \/
  (b = m + 1 /\ - m - 1 <= a <= m) \/
  (a = - m - 1 /\ - m - 1 <= b <= m).
Proof.
unfold spiral_lattice. rewrite !in_app_iff, !in_map_iff.
split.
- intros [H|[H|[H|H]]]; destruct H as [i [E Hi]]; inversion E;
    apply in_range in Hi; lia.
- intros [H|[H|[H|H]]].
  + left. exists (a + m). split; [f_equal; lia | apply in_range; lia].
  + right; left. exists (b + m). split; [f_equal; lia | apply in_range; lia].
  + right; right; left. exists (m + 1 - a).
    split; [f_equal; lia | apply in_range; lia].
  + right; right; right. exists (m + 1 - b).
    split; [f_equal; lia | apply in_range; lia].
Qed.

Lemma NoDup_spiral_lattice m : 0 <= m -> NoDup (spiral_lattice m).
Proof.
intros Hm.
assert (Hleg : forall (f : Z -> Z * Z) lo hi,
          (forall i j, f i = f j -> i = j) -> NoDup (map f (range lo hi))).
{ intros f lo hi Hf. apply Injective_map_NoDup; [exact Hf | apply NoDup_range]. }
unfold spiral_lattice.
repeat apply NoDup_app;
  try (apply Hleg; intros i j E; inversion E; lia);
  intros [a b] H1 H2;
  repeat match goal with
         | H : In _ (_ ++ _) |- _ => apply in_app_or in H
         | H : In _ (map _ _) |- _ => apply in_map_iff in H
         | H : _ \/ _ |- _ => destruct H
         | H : exists _, _ |- _ => destruct H
         | H : _ /\ _ |- _ => destruct H
         | H : In _ (range _ _) |- _ => apply in_range in H
         | H : (_, _) = (_, _) |- _ => inversion H; clear H
         end; lia.
Qed.

(** What the first [k] iterations have visited: the square of radius [k]
    without its bottom row from column [-k + 1] on. *)
Lemma in_spiral_rings_upto k a b :
  In (a, b) (yields_upto spiral_rings k) ->
  Z.abs a <= Z.of_nat k /\ Z.abs b <= Z.of_nat k
  /\ ~ (b = - Z.of_nat k /\ - Z.of_nat k + 1 <= a).
Proof.
induction k as [|k IH].
- cbn [yields_upto start spiral_rings unroll app In]. intros [E|[]].
  inversion E. subst. lia.
- rewrite spiral_rings_succ, in_app_iff. intros [H|H].
  + specialize (IH H). lia.
  + apply in_spiral_lattice in H. lia.
Qed.

Lemma NoDup_spiral_rings k : NoDup (yields_upto spiral_rings k).
Proof.
induction k as [|k IH].
- cbn. constructor; [intros []|constructor].
- rewrite spiral_rings_succ.
  apply NoDup_app; [exact IH | apply NoDup_spiral_lattice; lia|].
  intros [a b] H1 H2. apply in_spiral_rings_upto in H1.
  apply in_spiral_lattice in H2. lia.
Qed.

(** The walk of the specification never comes back to a lattice point. *)
Lemma lattice_path_injective i j :
  lattice_path i = lattice_path j -> i = j.
Proof.
intros E. set (k := Nat.max i j).
pose proof (spiral_steps_ge k) as Hk.
apply (proj1 (NoDup_nth_error _) (NoDup_spiral_rings k)).
- rewrite (proj1 (spiral_rings_walk k)). cbn [List.length].
  rewrite length_walk_list. lia.
- rewrite !nth_error_spiral_rings by lia. now f_equal.
Qed.

(** And it reaches every lattice point. *)
Lemma lattice_path_surjective a b : exists n, lattice_path n = (a, b).
Proof.
destruct (Z.eq_dec (Z.max (Z.abs a) (Z.abs b)) 0) as [H0|H0].
- exists 0%nat. assert (a = 0 /\ b = 0) as [-> ->] by lia. reflexivity.
- set (r := Z.max (Z.abs a) (Z.abs b)) in *.
  assert (Hm : exists m, 0 <= m /\ In (a, b) (spiral_lattice m)).
  { destruct (Z.eq_dec b (- r)) as [Hb|Hb].
    - destruct (Z_le_dec (- r + 1) a) as [Ha|Ha].
      + exists r. split; [lia|]. apply in_spiral_lattice. lia.
      + exists (r - 1). split; [lia|]. apply in_spiral_lattice. lia.
    - exists (r - 1). split; [lia|]. apply in_spiral_lattice. lia. }
  destruct Hm as [m [Hm Hin]].
  assert (Hin' : In (a, b) (yields_upto spiral_rings (Datatypes.S (Z.to_nat m)))).
  { rewrite spiral_rings_succ, in_app_iff. right.
    now rewrite Z2Nat.id by lia. }
  apply In_nth_error in Hin'. destruct Hin' as [n Hn].
  exists n.
  assert (Hlt : (n < List.length (yields_upto spiral_rings
                                    (Datatypes.S (Z.to_nat m))))%nat)
    by (apply nth_error_Some; congruence).
  rewrite (proj1 (spiral_rings_walk _)) in Hlt. cbn [List.length] in Hlt.
  rewrite length_walk_list in Hlt.
  rewrite nth_error_spiral_rings in Hn by lia. congruence.
Qed.

Lemma lattice_path_bounds n :
  Z.abs (fst (lattice_path n)) <= Z.of_nat n
  /\ Z.abs (snd (lattice_path n)) <= Z.of_nat n.
Proof.
pose proof (nth_error_spiral_rings n n (spiral_steps_ge n)) as H.
apply nth_error_In in H. destruct (lattice_path n) as [a b].
apply in_spiral_rings_upto in H. cbn [fst snd]. lia.
Qed.

Section SpiralCoversLattice.
Context {F : Type} {AF : Arith F}.
Variable step : F.

Lemma spiral_points_scaled n :
  zero_product step ->
  gen_nth (spiral_points step) n = Some (scale step (lattice_path n)).
Proof.
intros Hz. destruct n as [|n]; [|apply spiral_points_walk].
rewrite spiral_points_centre. unfold scale, lattice_path.
cbn [Nat.iter nat_rect walker_start at_x at_y fst snd].
unfold zero_product in Hz. now rewrite Hz.
Qed.

(** X23: the first n + 1 points of the spiral are pairwise different
    whenever the float products i * step of the integers i of -n..n are
    pairwise different and 0 * step is 0.0. *)
Theorem spiral_never_repeats (n i j : nat) :
  zero_product step ->
  distinct_products step (Z.of_nat n) ->
  (i <= n)%nat -> (j <= n)%nat -> i <> j ->
  gen_nth (spiral_points step) i <> gen_nth (spiral_points step) j.
Proof.
intros Hz Hd Hi Hj Hij E.
rewrite !spiral_points_scaled in E by assumption.
assert (E' : scale step (lattice_path i) = scale step (lattice_path j))
  by congruence.
apply Hij, lattice_path_injective.
pose proof (lattice_path_bounds i). pose proof (lattice_path_bounds j).
apply (scale_injective_on step (Z.of_nat n)); try assumption; lia.
Qed.

(** X24: the spiral reaches every point of the lattice: the centre is
    its first point, and for integers a and b, not both 0, the point
    (a * step, b * step) is yielded at some later position. *)
Theorem spiral_reaches_every_lattice_point (a b : Z) :
  exists n,
    gen_nth (spiral_points step) n
    = Some (if (a =? 0) && (b =? 0) then (of_int 0, of_int 0)
            else scale step (a, b))
    /\ (n = 0%nat <-> a = 0 /\ b = 0).
Proof.
destruct (lattice_path_surjective a b) as [n Hn]. exists n.
destruct n as [|n].
- assert (E : (a, b) = (0, 0)) by (now rewrite <- Hn).
  injection E as -> ->. cbn [Z.eqb andb].
  split; [apply spiral_points_centre | tauto].
- rewrite spiral_points_walk, Hn.
  assert (Hne : (a, b) <> (0, 0)).
  { intros E. rewrite <- Hn in E.
    apply (lattice_path_injective (Datatypes.S n) 0) in E. discriminate. }
  destruct (Z.eqb_spec a 0) as [->|Ha], (Z.eqb_spec b 0) as [->|Hb];
    cbn [andb]; try contradiction; (split; [reflexivity|]);
    split; intros H; try discriminate; destruct H; congruence.
Qed.

End SpiralCoversLattice.

Lemma square_never_repeats_witness :
  gen_nth (square_ring_points 10%float) 3
  <> gen_nth (square_ring_points 10%float) 20.
Proof.
apply (square_never_repeats 10%float 3 3 20).
- reflexivity.
- intros r Hr. assert (E : r = 1 \/ r = 2 \/ r = 3) by lia.
  destruct E as [->|[->| ->]]; reflexivity.
- apply b64_distinct_products_sound. vm_compute. reflexivity.
- cbn. lia.
- cbn. lia.
- discriminate.
Defined.

Lemma square_reaches_every_lattice_point_witness :
  scale 10%float (-2, 1) = (-20, 10)%float
  /\ exists j,
    (j < Z.to_nat (8 * 2))%nat
    /\ gen_nth (square_ring_points 10%float)
               (1 + Z.to_nat (4 * 2 * (2 - 1)) + j)
       = Some (scale 10%float (-2, 1)).
Proof.
split; [reflexivity|].
apply (square_reaches_every_lattice_point 10%float (-2) 1 2).
- reflexivity.
- lia.
- reflexivity.
Defined.

Lemma spiral_never_repeats_witness :
  gen_nth (spiral_points 10%float) 1 <> gen_nth (spiral_points 10%float) 7.
Proof.
apply (spiral_never_repeats 10%float 8 1 7).
- reflexivity.
- apply b64_distinct_products_sound. vm_compute. reflexivity.
- lia.
- lia.
- discriminate.
Defined.

Section NextNeverStops.
Context {F : Type} {AF : Arith F} {LF : Libm F}.

(** X25: none of the four generators is ever exhausted: for every step,
    column count (zero and negative ones included) and row gap, every call
    of next returns a point. *)
Theorem next_never_stops (step : F) (columns : Z) (row_gap : F) (n : nat) :
  gen_nth (snake_points step columns row_gap) n <> None
  /\ gen_nth (square_ring_points step) n <> None
  /\ gen_nth (circle_ring_points step) n <> None
  /\ gen_nth (spiral_points step) n <> None.
Proof.
repeat split.
- destruct (gen_total _ _ (snake_productive step columns row_gap) n) as [p ->].
  discriminate.
- destruct (gen_total _ _ (square_productive step) n) as [p ->]. discriminate.
- destruct (gen_total _ _ (circle_productive step) n) as [p ->]. discriminate.
- destruct (gen_total _ _ (spiral_productive step) n) as [p ->]. discriminate.
Qed.

End NextNeverStops.

(** X26: the size guard does not catch NaN: on binary64, [nan <= 0] is
    false, so a run with size NaN and a positive count, on an output that
    takes every record, writes all its records and returns 0. *)
Theorem nan_size_is_not_rejected {LF : Libm float} {RNG : PyRandom}
  (env : Env) (args : @Args float) :
  size args = PrimFloat.nan ->
  0 < count args ->
  (forall n, (n < Z.to_nat (count args))%nat -> sink env n = Written) ->
  List.length (output (main env args)) = Z.to_nat (count args)
  /\ exit (main env args) = Success
  /\ forall o, In o (output (main env args)) -> width o = PrimFloat.nan.
Proof.
intros Hn Hc Hw.
assert (Hs : fle (size args) (of_int 0) = false) by (rewrite Hn; reflexivity).
destruct (main_complete env args Hc Hs Hw) as [H1 H2].
split; [exact H1|]. split; [exact H2|].
intros o Ho. apply In_nth_error in Ho. destruct Ho as [j Hj].
apply main_output_emitted in Hj.
destruct Hj as [index [p [border [_ [_ [_ ->]]]]]].
cbn [record_of width]. exact Hn.
Qed.

Lemma nan_size_is_not_rejected_witness :
  List.length (output (main (LF := libm_absent) env0
                            (args_b64 3 PrimFloat.nan))) = Z.to_nat 3
  /\ exit (main (LF := libm_absent) env0 (args_b64 3 PrimFloat.nan)) = Success.
Proof.
destruct (nan_size_is_not_rejected (LF := libm_absent) env0
            (args_b64 3 PrimFloat.nan)) as [H1 [H2 _]].
- reflexivity.
- reflexivity.
- intros n _. reflexivity.
- split; [exact H1 | exact H2].
Defined.
